(** * Credit metering of the Universal AI API gateway (app.py)

    A shallow embedding of the credit accounting of [app.py]: the key
    store [API_KEYS_STORAGE], the request log [REQUEST_LOGS_STORAGE], the
    helpers [check_credits], [use_credits], [log_request], [update_usage]
    and the six metered endpoints, followed by the properties of the
    metering engine. *)

From stdpp Require Import gmap strings list fin_maps pretty.
From Stdlib Require Import ZArith Lia.

Open Scope Z_scope.

(** ** Data model *)

(** A naive UTC [datetime]: [date] is the calendar day (as the proleptic
    ordinal that [datetime.date()] orders by), [time_of_day] the
    microseconds since midnight. *)
Record datetime := mk_datetime { date : Z; time_of_day : Z }.

(** [(b - a).total_seconds()]; the source holds the quotient by 10^6 as a
    float, the model keeps the microsecond count it is computed from. *)
Definition total_seconds (b a : datetime) : Z :=
  (date b - date a) * 86400000000 + (time_of_day b - time_of_day a).

(** [timedelta(days=n)] added to a datetime. *)
Definition add_days (d : datetime) (n : Z) : datetime :=
  {| date := date d + n; time_of_day := time_of_day d |}.

(** The dict stored under each key of [API_KEYS_STORAGE]. *)
Record key_data := mk_key_data {
  kd_id : Z;
  key : string;
  name : string;
  created_at : datetime;
  is_active : bool;
  total_requests : Z;
  daily_requests : Z;
  daily_limit : Z;
  credits : Z;
  last_reset : datetime;
  last_used : option datetime;
  expires_at : datetime
}.

(** Assignments to one item of that dict, [key_data['...'] = v]. *)
Definition set_credits (v : Z) (d : key_data) : key_data :=
  mk_key_data (kd_id d) (key d) (name d) (created_at d) (is_active d)
    (total_requests d) (daily_requests d) (daily_limit d) v
    (last_reset d) (last_used d) (expires_at d).

Definition set_total_requests (v : Z) (d : key_data) : key_data :=
  mk_key_data (kd_id d) (key d) (name d) (created_at d) (is_active d)
    v (daily_requests d) (daily_limit d) (credits d)
    (last_reset d) (last_used d) (expires_at d).

Definition set_daily_requests (v : Z) (d : key_data) : key_data :=
  mk_key_data (kd_id d) (key d) (name d) (created_at d) (is_active d)
    (total_requests d) v (daily_limit d) (credits d)
    (last_reset d) (last_used d) (expires_at d).

Definition set_last_used (v : option datetime) (d : key_data) : key_data :=
  mk_key_data (kd_id d) (key d) (name d) (created_at d) (is_active d)
    (total_requests d) (daily_requests d) (daily_limit d) (credits d)
    (last_reset d) v (expires_at d).

Definition set_last_reset (v : datetime) (d : key_data) : key_data :=
  mk_key_data (kd_id d) (key d) (name d) (created_at d) (is_active d)
    (total_requests d) (daily_requests d) (daily_limit d) (credits d)
    v (last_used d) (expires_at d).

Definition set_daily_limit (v : Z) (d : key_data) : key_data :=
  mk_key_data (kd_id d) (key d) (name d) (created_at d) (is_active d)
    (total_requests d) (daily_requests d) v (credits d)
    (last_reset d) (last_used d) (expires_at d).

Definition set_expires_at (v : datetime) (d : key_data) : key_data :=
  mk_key_data (kd_id d) (key d) (name d) (created_at d) (is_active d)
    (total_requests d) (daily_requests d) (daily_limit d) (credits d)
    (last_reset d) (last_used d) v.

(** The dicts appended to [REQUEST_LOGS_STORAGE]. *)
Module Log.
Record entry := mk {
  id : Z;
  api_key : string;
  endpoint : string;
  prompt : option string;
  response_time : option Z;
  credits_used : Z;
  created_at : datetime
}.
End Log.

(** The module-level state of the process, with the number of readings of
    the clock taken so far. *)
Record World := mk_World {
  API_KEYS_STORAGE : gmap string key_data;
  REQUEST_LOGS_STORAGE : list Log.entry;
  clock_reads : nat
}.

(** What a handler returns: a plain string or a [RedirectResponse]. *)
Inductive response :=
| Text (body : string)
| RedirectResponse (url : string).

(** Exceptions: FastAPI's [HTTPException], and every other [Exception]
    with its [str(e)]. *)
Inductive exn :=
| HTTPException (status_code : Z) (detail : string)
| Exception (msg : string).

(** The [KeyError] of a dict that lacks the key; its [str] is the [repr]
    of the key (rendered here for keys without quote or backslash, as
    [generate_api_key] makes them). *)
Definition KeyError (k : string) : exn := Exception ("'" +:+ k +:+ "'").

(** ** Computations: state that survives a raised exception *)

Definition M (A : Type) : Type := World → (exn + A) * World.

Global Instance M_ret : MRet M := λ A (x : A) w, (inr x, w).

Global Instance M_bind : MBind M := λ A B (f : A → M B) (c : M A) w,
  match c w with
  | (inr x, w') => f x w'
  | (inl e, w') => (inl e, w')
  end.

Definition raise {A} (e : exn) : M A := λ w, (inl e, w).

(** [try: c except e: h e] *)
Definition try_except {A} (c : M A) (h : exn → M A) : M A := λ w,
  match c w with
  | (inr x, w') => (inr x, w')
  | (inl e, w') => h e w'
  end.

Definition get_keys : M (gmap string key_data) :=
  λ w, (inr (API_KEYS_STORAGE w), w).

Definition get_logs : M (list Log.entry) :=
  λ w, (inr (REQUEST_LOGS_STORAGE w), w).

Definition put_logs (l : list Log.entry) : M unit :=
  λ w, (inr (), mk_World (API_KEYS_STORAGE w) l (clock_reads w)).

(** [API_KEYS_STORAGE[api_key]]: a [KeyError] when the key is absent. *)
Definition getitem (api_key : string) : M key_data := λ w,
  match API_KEYS_STORAGE w !! api_key with
  | Some d => (inr d, w)
  | None => (inl (KeyError api_key), w)
  end.

(** [API_KEYS_STORAGE[api_key][...] = ...]: the stored dict is updated in
    place, so every later reading through the store sees it. *)
Definition setitem (api_key : string) (f : key_data → key_data) : M unit :=
  λ w,
  match API_KEYS_STORAGE w !! api_key with
  | Some d => (inr (), mk_World (<[api_key := f d]> (API_KEYS_STORAGE w))
                          (REQUEST_LOGS_STORAGE w) (clock_reads w))
  | None => (inl (KeyError api_key), w)
  end.

(** ** Requests *)

Inductive request :=
| GetFfinfo (uid api_key : string)
| GetImage (prompt : string) (width height : Z) (api_key : string)
| GetVoice (text api_key : string)
| GetQr (data api_key : string)
| GetVideo (prompt api_key : string)
| GetNum (mobile api_key : string).

(** The [api_key] query parameter of a request. *)
Definition key_of (r : request) : string :=
  match r with
  | GetFfinfo _ k | GetImage _ _ _ k | GetVoice _ k | GetQr _ k
  | GetVideo _ k | GetNum _ k => k
  end.

(** The process before [init_storage] has run. *)
Definition fresh : World := mk_World ∅ [] 0.

(** ** The cost table of the specification *)

(** Static table of the specification: image 2, video 2, voice 1, qr 1,
    num 5, info-redirect 1. *)
Definition spec_cost (r : request) : Z :=
  match r with
  | GetImage _ _ _ _ => 2
  | GetVideo _ _ => 2
  | GetVoice _ _ => 1
  | GetQr _ _ => 1
  | GetNum _ _ => 5
  | GetFfinfo _ _ => 1
  end.

(** [API_KEYS_STORAGE[api_key] = d]: a new dict stored under the key. *)
Definition store_key (api_key : string) (d : key_data) : M unit :=
  λ w, (inr (), mk_World (<[api_key := d]> (API_KEYS_STORAGE w))
                  (REQUEST_LOGS_STORAGE w) (clock_reads w)).

(** The arguments of one call of [log_request]. *)
Record log_call := mk_log_call {
  lc_api_key : string;
  lc_endpoint : string;
  lc_prompt : option string;
  lc_response_time : option Z;
  lc_credits_used : Z
}.

Definition call_of (e : Log.entry) : log_call :=
  mk_log_call (Log.api_key e) (Log.endpoint e) (Log.prompt e)
    (Log.response_time e) (Log.credits_used e).

(** ** A concrete process, used to exercise the statements below *)

(** A clock that stays on day 20000 and advances one microsecond a
    reading, a [quote] that leaves its argument alone, a number service
    that answers and one that times out. *)
Definition clock0 (n : nat) : datetime := mk_datetime 20000 (Z.of_nat n).
Definition quote0 (s : string) : string := s.
Definition net_up (n : nat) (url : string) : string + string := inr "ok"%string.
Definition net_down (n : nat) (url : string) : string + string :=
  inl "timed out"%string.

(** The default key as [init_storage] makes it, but last reset the day
    before; an inactive key with credits; a key with a single credit. *)
Definition account0 : key_data :=
  mk_key_data 1 "k1" "Test Key" (mk_datetime 19999 0) true 0 7 30 50
    (mk_datetime 19999 0) None (mk_datetime 20364 0).
Definition account_off : key_data :=
  mk_key_data 2 "k2" "Closed" (mk_datetime 19999 0) false 0 0 30 50
    (mk_datetime 19999 0) None (mk_datetime 20364 0).
Definition account_low : key_data :=
  mk_key_data 3 "k3" "Low" (mk_datetime 20000 0) true 4 4 30 1
    (mk_datetime 20000 0) None (mk_datetime 20365 0).

Definition world0 : World :=
  mk_World (<["k1"%string := account0]>
              (<["k2"%string := account_off]>
                 (<["k3"%string := account_low]> ∅))) [] 0.

(** The same process with other limits stored for ["k1"]. *)
Definition world0' : World :=
  mk_World (<["k1"%string :=
                set_expires_at (mk_datetime 1 0) (set_daily_limit 0 account0)]>
              (<["k2"%string := account_off]>
                 (<["k3"%string := account_low]> ∅))) [] 0.

(** A process whose accounts have their counters in order. *)
Definition world1 : World :=
  mk_World (<["k2"%string := account_off]>
              (<["k3"%string := account_low]> ∅)) [] 0.

Definition call0 : log_call := mk_log_call "k1" "/qr" (Some "x"%string) (Some 1) 1.

(** A table of admins, a hash and a date format to exercise the admin
    and health functions. *)
Definition hash0 (s : string) : string := "h(" +:+ s +:+ ")".
Definition isoformat0 (d : datetime) : string :=
  pretty (date d) +:+ "T" +:+ pretty (time_of_day d).

Section Gateway.

(** The environment: the successive readings of [datetime.utcnow()],
    [urllib.parse.quote], and the outcome of the GET of the number
    service ([inr] the response text, [inl] the [str] of the exception
    that [client.get] or [raise_for_status] raised), which may depend on
    when it is issued. *)
Variable utcnow_at : nat → datetime.
Variable quote : string → string.
Variable client_get : nat → string → string + string.

Definition utcnow : M datetime := λ w,
  (inr (utcnow_at (clock_reads w)),
   mk_World (API_KEYS_STORAGE w) (REQUEST_LOGS_STORAGE w) (S (clock_reads w))).

Definition get (url : string) : M string := λ w,
  match client_get (clock_reads w) url with
  | inr text => (inr text, w)
  | inl msg => (inl (Exception msg), w)
  end.

(** ** The helpers of app.py *)

Definition check_credits (api_key : string) (credits_needed : Z) : M bool :=
  try_except
    (keys ← get_keys;
     if bool_decide (keys !! api_key = None) then mret false
     else
       key_data ← getitem api_key;
       if negb (is_active key_data) then mret false
       else mret (bool_decide (credits_needed ≤ credits key_data)))
    (λ _, mret false).

Definition use_credits (api_key : string) (credits_used : Z) : M unit :=
  try_except
    (keys ← get_keys;
     if bool_decide (keys !! api_key = None) then mret ()
     else
       key_data ← getitem api_key;
       setitem api_key (set_credits (credits key_data - credits_used)))
    (λ _, mret ()).

Definition log_request (api_key endpoint : string) (prompt : option string)
    (response_time : option Z) (credits_used : Z) : M unit :=
  try_except
    (logs ← get_logs;
     now ← utcnow;
     put_logs (logs ++ [Log.mk (Z.of_nat (length logs) + 1) api_key endpoint
                          prompt response_time credits_used now]);;
     logs ← get_logs;
     if bool_decide (100 < Z.of_nat (length logs)) then put_logs (tail logs)
     else mret ())
    (λ _, mret ()).

Definition update_usage (api_key : string) : M unit :=
  try_except
    (keys ← get_keys;
     if bool_decide (keys !! api_key = None) then mret ()
     else
       key_data ← getitem api_key;
       setitem api_key (set_total_requests (total_requests key_data + 1));;
       key_data ← getitem api_key;
       setitem api_key (set_daily_requests (daily_requests key_data + 1));;
       now ← utcnow;
       setitem api_key (set_last_used (Some now));;
       now ← utcnow;
       let today := date now in
       key_data ← getitem api_key;
       if bool_decide (date (last_reset key_data) < today) then
         setitem api_key (set_daily_requests 1);;
         now ← utcnow;
         setitem api_key (set_last_reset now)
       else mret ())
    (λ _, mret ()).

(** ** The metered endpoints *)

(** The [except HTTPException: raise / except Exception as e: raise
    HTTPException(500, ...)] clauses that close every handler. *)
Definition reraise (what : string) (e : exn) : M response :=
  match e with
  | HTTPException _ _ => raise e
  | Exception msg => raise (HTTPException 500 (what +:+ msg))
  end.

Definition ffinfo_redirect (uid api_key : string) : M response :=
  try_except
    (start_time ← utcnow;
     ok ← check_credits api_key 1;
     if negb ok then
       raise (HTTPException 402 "Insufficient credits. This service costs 1 credit.")
     else
       keys ← get_keys;
       if bool_decide (keys !! api_key = None) then
         raise (HTTPException 401 "Invalid API key")
       else
         let redirect_url :=
           "https://danger-info-alpha.vercel.app/accinfo?uid=" +:+ uid
             +:+ "&key=MK_DEVELOPER" in
         now ← utcnow;
         let response_time := total_seconds now start_time in
         use_credits api_key 1;;
         update_usage api_key;;
         log_request api_key "/ffinfo" (Some uid) (Some response_time) 1;;
         mret (RedirectResponse redirect_url))
    (reraise "FF Info redirect error: ").

Definition image_generation (prompt : string) (width height : Z)
    (api_key : string) : M response :=
  start_time ← utcnow;
  try_except
    (ok ← check_credits api_key 2;
     if negb ok then
       raise (HTTPException 402 "Insufficient credits. This service costs 2 credits.")
     else
       keys ← get_keys;
       if bool_decide (keys !! api_key = None) then
         raise (HTTPException 401 "Invalid API key")
       else
         let encoded_prompt := quote prompt in
         let direct_image_url :=
           "https://image.pollinations.ai/prompt/" +:+ encoded_prompt
             +:+ "?width=" +:+ pretty width +:+ "&height=" +:+ pretty height
             +:+ "&nologo=true" in
         now ← utcnow;
         let response_time := total_seconds now start_time in
         use_credits api_key 2;;
         update_usage api_key;;
         log_request api_key "/image" (Some prompt) (Some response_time) 2;;
         mret (Text direct_image_url))
    (reraise "Image generation error: ").

Definition voice_generation (text api_key : string) : M response :=
  start_time ← utcnow;
  try_except
    (ok ← check_credits api_key 1;
     if negb ok then
       raise (HTTPException 402 "Insufficient credits. This service costs 1 credit.")
     else
       keys ← get_keys;
       if bool_decide (keys !! api_key = None) then
         raise (HTTPException 401 "Invalid API key")
       else
         let encoded_text := quote text in
         let voice_url :=
           "https://api.murf.ai/api/v1/speech/synthesize/stream?text="
             +:+ encoded_text
             +:+ "&voice=en-US-Standard-B&format=mp3&style=neutral&spokenPacing=medium" in
         now ← utcnow;
         let response_time := total_seconds now start_time in
         use_credits api_key 1;;
         update_usage api_key;;
         log_request api_key "/voice" (Some text) (Some response_time) 1;;
         mret (Text voice_url))
    (reraise "Voice generation error: ").

Definition qr_generation (data api_key : string) : M response :=
  start_time ← utcnow;
  try_except
    (ok ← check_credits api_key 1;
     if negb ok then
       raise (HTTPException 402 "Insufficient credits. This service costs 1 credit.")
     else
       keys ← get_keys;
       if bool_decide (keys !! api_key = None) then
         raise (HTTPException 401 "Invalid API key")
       else
         let encoded_data := quote data in
         let qr_url :=
           "https://api.qrserver.com/v1/create-qr-code/?size=200x200&data="
             +:+ encoded_data +:+ "&format=svg" in
         now ← utcnow;
         let response_time := total_seconds now start_time in
         use_credits api_key 1;;
         update_usage api_key;;
         log_request api_key "/qr" (Some data) (Some response_time) 1;;
         mret (Text qr_url))
    (reraise "QR generation error: ").

Definition video_generation (prompt api_key : string) : M response :=
  start_time ← utcnow;
  try_except
    (ok ← check_credits api_key 2;
     if negb ok then
       raise (HTTPException 402 "Insufficient credits. This service costs 2 credits.")
     else
       keys ← get_keys;
       if bool_decide (keys !! api_key = None) then
         raise (HTTPException 401 "Invalid API key")
       else
         let encoded_prompt := quote prompt in
         let video_url :=
           "https://image.pollinations.ai/prompt/" +:+ encoded_prompt
             +:+ "?width=512&height=512&nologo=true&seed=1&model=black-forest-labs/flux" in
         now ← utcnow;
         let response_time := total_seconds now start_time in
         use_credits api_key 2;;
         update_usage api_key;;
         log_request api_key "/video" (Some prompt) (Some response_time) 2;;
         mret (Text video_url))
    (reraise "Video generation error: ").

Definition number_service (mobile api_key : string) : M response :=
  start_time ← utcnow;
  try_except
    (ok ← check_credits api_key 5;
     if negb ok then
       raise (HTTPException 402 "Insufficient credits. This service costs 5 credits.")
     else
       keys ← get_keys;
       if bool_decide (keys !! api_key = None) then
         raise (HTTPException 401 "Invalid API key")
       else
         let num_url :=
           "https://nixonsmmapi.s77134867.workers.dev/?mobile=" +:+ mobile in
         num_response ← get num_url;
         now ← utcnow;
         let response_time := total_seconds now start_time in
         use_credits api_key 5;;
         update_usage api_key;;
         log_request api_key "/num" (Some mobile) (Some response_time) 5;;
         mret (Text num_response))
    (reraise "Number service error: ").

(** ** Routing and sequential service *)

(** The routing of [@app.get]. *)
Definition handle (r : request) : M response :=
  match r with
  | GetFfinfo uid api_key => ffinfo_redirect uid api_key
  | GetImage prompt width height api_key =>
      image_generation prompt width height api_key
  | GetVoice text api_key => voice_generation text api_key
  | GetQr data api_key => qr_generation data api_key
  | GetVideo prompt api_key => video_generation prompt api_key
  | GetNum mobile api_key => number_service mobile api_key
  end.

(** Requests served one after the other, each to completion; the
    framework turns a raised [HTTPException] into an error response and
    the process goes on with the state as the handler left it. *)
Fixpoint serve (rs : list request) (w : World) : World :=
  match rs with
  | [] => w
  | r :: rs' => serve rs' (snd (handle r w))
  end.

(** [init_storage]: one default key with 50 credits; [default_key] is
    what [generate_api_key()] returned. The admin table plays no part in
    metering and is left out. *)
Definition init_storage (default_key : string) : M unit :=
  created ← utcnow;
  reset ← utcnow;
  expires ← utcnow;
  store_key default_key
    (mk_key_data 1 default_key "Test Key" created true 0 0 30 50
       reset None (add_days expires 365)).

(** ** Reading the helpers as state transformers *)

Definition tick (w : World) : World :=
  mk_World (API_KEYS_STORAGE w) (REQUEST_LOGS_STORAGE w) (S (clock_reads w)).

(** The answer of [check_credits], read off the store. *)
Definition authorized (api_key : string) (credits_needed : Z) (w : World) : bool :=
  match API_KEYS_STORAGE w !! api_key with
  | Some d => is_active d && bool_decide (credits_needed ≤ credits d)
  | None => false
  end.

(** The account after [update_usage], when the clock stood at reading
    [n] on entry. *)
Definition used (n : nat) (d : key_data) : key_data :=
  let d1 := set_last_used (Some (utcnow_at n))
              (set_daily_requests (daily_requests d + 1)
                 (set_total_requests (total_requests d + 1) d)) in
  if bool_decide (date (last_reset d) < date (utcnow_at (S n))) then
    set_last_reset (utcnow_at (S (S n))) (set_daily_requests 1 d1)
  else d1.

Definition used_reads (n : nat) (d : key_data) : nat :=
  if bool_decide (date (last_reset d) < date (utcnow_at (S n))) then 3%nat
  else 2%nat.

(** The log after one [log_request]. *)
Definition logged (logs : list Log.entry) (e : Log.entry) : list Log.entry :=
  if bool_decide (100 < Z.of_nat (length (logs ++ [e]))) then tail (logs ++ [e])
  else logs ++ [e].

(** What each endpoint logs: its path and the parameter it records as
    prompt; and the detail of its 402 answer. *)
Definition endpoint_of (r : request) : string :=
  match r with
  | GetFfinfo _ _ => "/ffinfo"
  | GetImage _ _ _ _ => "/image"
  | GetVoice _ _ => "/voice"
  | GetQr _ _ => "/qr"
  | GetVideo _ _ => "/video"
  | GetNum _ _ => "/num"
  end.

Definition prompt_of (r : request) : string :=
  match r with
  | GetFfinfo s _ | GetImage s _ _ _ | GetVoice s _ | GetQr s _
  | GetVideo s _ | GetNum s _ => s
  end.

Definition denial (r : request) : string :=
  match r with
  | GetImage _ _ _ _ | GetVideo _ _ =>
      "Insufficient credits. This service costs 2 credits."
  | GetNum _ _ => "Insufficient credits. This service costs 5 credits."
  | _ => "Insufficient credits. This service costs 1 credit."
  end.

(** The world after the three bookkeeping calls
    [use_credits; update_usage; log_request] of a handler entered at [w]
    (two readings of the clock precede them). *)
Definition charge (r : request) (w : World) : World :=
  let n := clock_reads w in
  let response_time := total_seconds (utcnow_at (S n)) (utcnow_at n) in
  let w1 := tick (tick w) in
  let w2 := snd (use_credits (key_of r) (spec_cost r) w1) in
  let w3 := snd (update_usage (key_of r) w2) in
  snd (log_request (key_of r) (endpoint_of r) (Some (prompt_of r))
         (Some response_time) (spec_cost r) w3).

(** The part of a handler between the two checks and the bookkeeping:
    five endpoints build a URL, [/num] fetches one. [inl] carries the
    detail of the 500 answer. *)
Definition downstream (r : request) (n : nat) : string + response :=
  match r with
  | GetFfinfo uid _ =>
      inr (RedirectResponse
             ("https://danger-info-alpha.vercel.app/accinfo?uid=" +:+ uid
                +:+ "&key=MK_DEVELOPER"))
  | GetImage prompt width height _ =>
      inr (Text ("https://image.pollinations.ai/prompt/" +:+ quote prompt
                   +:+ "?width=" +:+ pretty width +:+ "&height="
                   +:+ pretty height +:+ "&nologo=true"))
  | GetVoice text _ =>
      inr (Text ("https://api.murf.ai/api/v1/speech/synthesize/stream?text="
                   +:+ quote text
                   +:+ "&voice=en-US-Standard-B&format=mp3&style=neutral&spokenPacing=medium"))
  | GetQr data _ =>
      inr (Text ("https://api.qrserver.com/v1/create-qr-code/?size=200x200&data="
                   +:+ quote data +:+ "&format=svg"))
  | GetVideo prompt _ =>
      inr (Text ("https://image.pollinations.ai/prompt/" +:+ quote prompt
                   +:+ "?width=512&height=512&nologo=true&seed=1&model=black-forest-labs/flux"))
  | GetNum mobile _ =>
      match client_get n ("https://nixonsmmapi.s77134867.workers.dev/?mobile="
                            +:+ mobile) with
      | inr text => inr (Text text)
      | inl msg => inl ("Number service error: " +:+ msg)
      end
  end.

(** A run of calls of [log_request]. *)
Fixpoint log_requests (calls : list log_call) (w : World) : World :=
  match calls with
  | [] => w
  | c :: calls' =>
      log_requests calls'
        (snd (log_request (lc_api_key c) (lc_endpoint c) (lc_prompt c)
                (lc_response_time c) (lc_credits_used c) w))
  end.

(** Two accounts that differ at most in [daily_limit] and [expires_at]. *)
Definition same_but_limits (a b : key_data) : Prop :=
  kd_id a = kd_id b ∧ key a = key b ∧ name a = name b ∧
  created_at a = created_at b ∧ is_active a = is_active b ∧
  total_requests a = total_requests b ∧
  daily_requests a = daily_requests b ∧ credits a = credits b ∧
  last_reset a = last_reset b ∧ last_used a = last_used b.

(** Two worlds whose stores hold the same keys with such accounts, and
    that agree on the log and on the clock. *)
Definition same_but_limits_world (w1 w2 : World) : Prop :=
  (∀ k, option_Forall2 same_but_limits
          (API_KEYS_STORAGE w1 !! k) (API_KEYS_STORAGE w2 !! k)) ∧
  REQUEST_LOGS_STORAGE w1 = REQUEST_LOGS_STORAGE w2 ∧
  clock_reads w1 = clock_reads w2.

(** The endpoints that fetch nothing. *)
Definition is_local (r : request) : bool :=
  match r with GetNum _ _ => false | _ => true end.

(** No account of the store is overdrawn. *)
Definition solvent (w : World) : Prop :=
  ∀ k d, API_KEYS_STORAGE w !! k = Some d → 0 ≤ credits d.

(** The id given to the [j]-th entry ever appended to an empty log. *)
Definition id_given (j : nat) : Z := Z.of_nat (j `min` 101).

(** ** The rest of app.py *)

(** [str(e)]: Starlette renders an [HTTPException] as its status and
    detail. *)
Definition str (e : exn) : string :=
  match e with
  | HTTPException status_code detail => pretty status_code +:+ ": " +:+ detail
  | Exception msg => msg
  end.

(** [generate_api_key]: [timestamp] is [int(time.time())], [random_part]
    is [secrets.token_urlsafe(16)]. *)
Definition generate_api_key (timestamp : Z) (random_part : string) : string :=
  "api_" +:+ pretty timestamp +:+ "_" +:+ random_part.

(** The first statement of [init_storage]:
    [ADMIN_USERS_STORAGE['mk'] = password_hash]; [sha256_hexdigest s] is
    [hashlib.sha256(s.encode()).hexdigest()]. *)
Definition init_admin_users (sha256_hexdigest : string → string)
    (ADMIN_USERS_STORAGE : gmap string string) : gmap string string :=
  let password_hash := sha256_hexdigest "mk123" in
  <["mk"%string := password_hash]> ADMIN_USERS_STORAGE.

(** [verify_admin], over the admin table it reads. Nothing in its body
    raises, so its [except Exception: pass] is never entered. *)
Definition verify_admin (sha256_hexdigest : string → string)
    (ADMIN_USERS_STORAGE : gmap string string)
    (username password : string) : bool :=
  match ADMIN_USERS_STORAGE !! username with
  | Some stored_hash => bool_decide (sha256_hexdigest password = stored_hash)
  | None => false
  end.

(** The two dicts that [/health] can return; [isoformat] is
    [datetime.isoformat]. *)
Inductive health :=
| Healthy (timestamp : string) (api_keys_count logs_count : nat)
| Degraded (error timestamp : string).

Definition health_check (isoformat : datetime → string) : M health :=
  try_except
    (now ← utcnow;
     keys ← get_keys;
     logs ← get_logs;
     mret (Healthy (isoformat now) (size keys) (length logs)))
    (λ e, now ← utcnow; mret (Degraded (str e) (isoformat now))).

(** The answers to a run of requests served one after the other. *)
Fixpoint answers (rs : list request) (w : World) : list (exn + response) :=
  match rs with
  | [] => []
  | r :: rs' => fst (handle r w) :: answers rs' (snd (handle r w))
  end.

(** What the handlers published as the price of the answered requests of
    the key [k] in such a run, and how many of them were answered. *)
Fixpoint spent (k : string) (rs : list request) (w : World) : Z :=
  match rs with
  | [] => 0
  | r :: rs' =>
      (match fst (handle r w) with
       | inr _ => if bool_decide (key_of r = k) then spec_cost r else 0
       | inl _ => 0
       end) + spent k rs' (snd (handle r w))
  end.

Fixpoint answered (k : string) (rs : list request) (w : World) : Z :=
  match rs with
  | [] => 0
  | r :: rs' =>
      (match fst (handle r w) with
       | inr _ => if bool_decide (key_of r = k) then 1 else 0
       | inl _ => 0
       end) + answered k rs' (snd (handle r w))
  end.

(** The items of an account that no handler assigns. *)
Definition same_identity (a b : key_data) : Prop :=
  kd_id a = kd_id b ∧ key a = key b ∧ name a = name b ∧
  created_at a = created_at b ∧ is_active a = is_active b ∧
  daily_limit a = daily_limit b ∧ expires_at a = expires_at b.

(** What serving may do to an account: spend credits and count
    requests, nothing else. *)
Definition evolved (a b : key_data) : Prop :=
  same_identity a b ∧ credits b ≤ credits a ∧
  total_requests a ≤ total_requests b.

(** A log entry that refers to a stored key and records one of the six
    endpoints with its parameter and its price. *)
Definition log_entry_sound (w : World) (e : Log.entry) : Prop :=
  is_Some (API_KEYS_STORAGE w !! Log.api_key e) ∧
  ∃ r, key_of r = Log.api_key e ∧ endpoint_of r = Log.endpoint e ∧
       Log.prompt e = Some (prompt_of r) ∧ Log.credits_used e = spec_cost r.

Definition log_sound (w : World) : Prop :=
  Forall (log_entry_sound w) (REQUEST_LOGS_STORAGE w).

(** The counters of every account are in order: no request counted for
    the day that is not counted in the total. *)
Definition counted (w : World) : Prop :=
  ∀ k d, API_KEYS_STORAGE w !! k = Some d →
         0 ≤ daily_requests d ≤ total_requests d.

Lemma check_credits_eq api_key n w :
  check_credits api_key n w = (inr (authorized api_key n w), w).
Proof.
  unfold check_credits, authorized, try_except, mbind, M_bind, get_keys, getitem.
  simpl. destruct (API_KEYS_STORAGE w !! api_key) as [d|] eqn:E; simpl.
  - rewrite E. destruct (is_active d); reflexivity.
  - reflexivity.
Qed.

Lemma use_credits_eq api_key n w :
  use_credits api_key n w =
    (inr (),
     match API_KEYS_STORAGE w !! api_key with
     | Some d =>
         mk_World (<[api_key := set_credits (credits d - n) d]> (API_KEYS_STORAGE w))
           (REQUEST_LOGS_STORAGE w) (clock_reads w)
     | None => w
     end).
Proof.
  unfold use_credits, try_except, mbind, M_bind, get_keys, getitem, setitem.
  simpl. destruct (API_KEYS_STORAGE w !! api_key) as [d|] eqn:E; simpl.
  - rewrite E. simpl. rewrite E. reflexivity.
  - reflexivity.
Qed.

Lemma log_request_eq api_key endpoint prompt response_time n w :
  log_request api_key endpoint prompt response_time n w =
    (inr (),
     mk_World (API_KEYS_STORAGE w)
       (logged (REQUEST_LOGS_STORAGE w)
          (Log.mk (Z.of_nat (length (REQUEST_LOGS_STORAGE w)) + 1) api_key
             endpoint prompt response_time n (utcnow_at (clock_reads w))))
       (S (clock_reads w))).
Proof.
  unfold log_request, logged, try_except, mbind, M_bind, get_logs, put_logs, utcnow.
  simpl. case_bool_decide; reflexivity.
Qed.

Lemma update_usage_eq api_key w :
  update_usage api_key w =
    (inr (),
     match API_KEYS_STORAGE w !! api_key with
     | Some d =>
         mk_World (<[api_key := used (clock_reads w) d]> (API_KEYS_STORAGE w))
           (REQUEST_LOGS_STORAGE w)
           (used_reads (clock_reads w) d + clock_reads w)
     | None => w
     end).
Proof.
  unfold update_usage, used, used_reads, try_except, mbind, M_bind, get_keys,
    getitem, setitem, utcnow.
  simpl. destruct (API_KEYS_STORAGE w !! api_key) as [d|] eqn:E; simpl;
    [|reflexivity].
  repeat (progress (simpl; rewrite ?lookup_insert_eq, ?E)).
  destruct (bool_decide (date (last_reset d) < _)); simpl;
    repeat (progress (simpl; rewrite ?lookup_insert_eq, ?insert_insert_eq));
    reflexivity.
Qed.

(** Every handler is the same protocol around its own [downstream] step. *)
Lemma handle_eq r w :
  handle r w =
    if authorized (key_of r) (spec_cost r) w then
      match downstream r (S (clock_reads w)) with
      | inr resp => (inr resp, charge r w)
      | inl detail => (inl (HTTPException 500 detail), tick w)
      end
    else (inl (HTTPException 402 (denial r)), tick w).
Proof.
  destruct r; unfold handle, charge, downstream;
    unfold ffinfo_redirect, image_generation, voice_generation, qr_generation,
      video_generation, number_service, try_except, mbind, M_bind, utcnow,
      get_keys, get, raise, reraise; simpl;
    rewrite check_credits_eq; unfold authorized; simpl;
    (destruct (API_KEYS_STORAGE w !! _) as [d|] eqn:E; simpl; [|reflexivity]);
    (destruct (is_active d); simpl; [|reflexivity]);
    (destruct (bool_decide (_ ≤ credits d)); simpl; [|reflexivity]);
    rewrite ?E; simpl;
    try (destruct (client_get _ _); simpl; [reflexivity|]);
    unfold tick;
    repeat (progress (simpl; rewrite ?use_credits_eq, ?update_usage_eq,
                        ?log_request_eq, ?E, ?lookup_insert_eq));
    reflexivity.
Qed.

Lemma charge_eq r w d :
  API_KEYS_STORAGE w !! key_of r = Some d →
  charge r w =
    mk_World
      (<[key_of r := used (S (S (clock_reads w)))
                       (set_credits (credits d - spec_cost r) d)]>
         (API_KEYS_STORAGE w))
      (logged (REQUEST_LOGS_STORAGE w)
         (Log.mk (Z.of_nat (length (REQUEST_LOGS_STORAGE w)) + 1) (key_of r)
            (endpoint_of r) (Some (prompt_of r))
            (Some (total_seconds (utcnow_at (S (clock_reads w)))
                     (utcnow_at (clock_reads w))))
            (spec_cost r)
            (utcnow_at (used_reads (S (S (clock_reads w)))
                          (set_credits (credits d - spec_cost r) d)
                        + S (S (clock_reads w))))))
      (S (used_reads (S (S (clock_reads w)))
            (set_credits (credits d - spec_cost r) d)
          + S (S (clock_reads w)))).
Proof.
  intros E. unfold charge, tick.
  repeat (progress (simpl; rewrite ?use_credits_eq, ?update_usage_eq,
                      ?log_request_eq, ?E, ?lookup_insert_eq,
                      ?insert_insert_eq)).
  reflexivity.
Qed.

Lemma authorized_true k n w :
  authorized k n w = true ↔
  ∃ d, API_KEYS_STORAGE w !! k = Some d ∧ is_active d = true ∧ n ≤ credits d.
Proof.
  unfold authorized. destruct (API_KEYS_STORAGE w !! k) as [d|].
  - rewrite andb_true_iff, bool_decide_eq_true. split.
    + intros [? ?]. eauto.
    + intros (d' & [= <-] & ? & ?). auto.
  - split; [discriminate|]. intros (d' & [=] & _).
Qed.

Lemma authorized_false k n w :
  authorized k n w = false ↔
  match API_KEYS_STORAGE w !! k with
  | None => True
  | Some d => is_active d = false ∨ credits d < n
  end.
Proof.
  unfold authorized. destruct (API_KEYS_STORAGE w !! k) as [d|]; [|tauto].
  rewrite andb_false_iff, bool_decide_eq_false.
  split; (intros [?|?]; [left|right]); (done || lia).
Qed.

(** A handler that answers has passed the check and its downstream step. *)
Lemma handle_inr r w resp :
  fst (handle r w) = inr resp →
  authorized (key_of r) (spec_cost r) w = true ∧
  downstream r (S (clock_reads w)) = inr resp ∧
  snd (handle r w) = charge r w.
Proof.
  rewrite handle_eq.
  destruct (authorized _ _ w); [|discriminate].
  destruct (downstream r _); [discriminate|].
  simpl. intros [= ->]. auto.
Qed.

Lemma logged_last logs e : last (logged logs e) = Some e.
Proof.
  unfold logged. case_bool_decide as H.
  - destruct logs as [|x logs]; simpl in *.
    + lia.
    + apply last_snoc.
  - apply last_snoc.
Qed.

Lemma downstream_local r n : is_local r = true → ∃ resp, downstream r n = inr resp.
Proof. destruct r; simpl; intros; try discriminate; eauto. Qed.

Lemma used_credits n d : credits (used n d) = credits d.
Proof. unfold used. case_bool_decide; reflexivity. Qed.

Lemma used_total_requests n d :
  total_requests (used n d) = total_requests d + 1.
Proof. unfold used. case_bool_decide; reflexivity. Qed.

(** ** Properties of the metering engine *)

(** C1 (the code departs from the claim). A key that the store does not
    hold, or holds as inactive, makes [check_credits] answer [False], and
    every handler turns that answer into the 402 "Insufficient credits"
    response before its own 401 test is reached: the unknown key is
    answered 402, not 401. *)
Theorem C1_unknown_or_inactive_key_answered_402 r w :
  (API_KEYS_STORAGE w !! key_of r = None ∨
   ∃ d, API_KEYS_STORAGE w !! key_of r = Some d ∧ is_active d = false) →
  handle r w = (inl (HTTPException 402 (denial r)), tick w).
Proof.
  intros H. rewrite handle_eq.
  assert (authorized (key_of r) (spec_cost r) w = false) as ->; [|reflexivity].
  apply authorized_false. destruct H as [->|(d & -> & ?)]; auto.
Qed.

(** C2. A successful request of a known active key with enough credits
    takes exactly the cost of the static table off the balance, adds one
    to [total_requests], and appends one log entry, the last of the log
    afterwards, whose [credits_used] is that cost; no other account is
    touched. *)
Theorem C2_success_charges_table_cost r w d resp :
  API_KEYS_STORAGE w !! key_of r = Some d →
  is_active d = true →
  spec_cost r ≤ credits d →
  fst (handle r w) = inr resp →
  ∃ d' e,
    API_KEYS_STORAGE (snd (handle r w)) !! key_of r = Some d' ∧
    credits d' = credits d - spec_cost r ∧
    total_requests d' = total_requests d + 1 ∧
    REQUEST_LOGS_STORAGE (snd (handle r w)) =
      logged (REQUEST_LOGS_STORAGE w) e ∧
    last (REQUEST_LOGS_STORAGE (snd (handle r w))) = Some e ∧
    Log.credits_used e = spec_cost r ∧
    Log.api_key e = key_of r ∧
    Log.endpoint e = endpoint_of r ∧
    (∀ k, k ≠ key_of r →
          API_KEYS_STORAGE (snd (handle r w)) !! k = API_KEYS_STORAGE w !! k).
Proof.
  intros E Hact Hcr Hok.
  destruct (handle_inr _ _ _ Hok) as (_ & _ & ->).
  rewrite (charge_eq _ _ _ E). simpl.
  eexists _, _. split; [apply lookup_insert_eq|].
  rewrite used_credits, used_total_requests. simpl.
  repeat split; try reflexivity.
  - apply logged_last.
  - intros k Hk. by rewrite lookup_insert_ne.
Qed.

(** C3. An account whose balance is below the cost of the operation is
    answered 402, and the store (balance, [total_requests],
    [daily_requests] and every other item) and the log are as before. *)
Theorem C3_insufficient_credits_changes_nothing r w d :
  API_KEYS_STORAGE w !! key_of r = Some d →
  credits d < spec_cost r →
  fst (handle r w) = inl (HTTPException 402 (denial r)) ∧
  API_KEYS_STORAGE (snd (handle r w)) = API_KEYS_STORAGE w ∧
  REQUEST_LOGS_STORAGE (snd (handle r w)) = REQUEST_LOGS_STORAGE w.
Proof.
  intros E Hlt. rewrite handle_eq.
  assert (authorized (key_of r) (spec_cost r) w = false) as ->.
  { apply authorized_false. rewrite E. auto. }
  auto.
Qed.

(** C4. When the GET of the number service fails (the only downstream
    call of the gateway), the request is answered 500 with the cause in
    the detail, and neither the store (credits, [total_requests],
    [daily_requests], [last_used]) nor the log has moved. *)
Theorem C4_downstream_failure_charges_nothing mobile api_key w d cause :
  API_KEYS_STORAGE w !! api_key = Some d →
  is_active d = true →
  5 ≤ credits d →
  client_get (S (clock_reads w))
    ("https://nixonsmmapi.s77134867.workers.dev/?mobile=" +:+ mobile)
    = inl cause →
  fst (number_service mobile api_key w) =
    inl (HTTPException 500 ("Number service error: " +:+ cause)) ∧
  API_KEYS_STORAGE (snd (number_service mobile api_key w)) = API_KEYS_STORAGE w ∧
  REQUEST_LOGS_STORAGE (snd (number_service mobile api_key w)) =
    REQUEST_LOGS_STORAGE w.
Proof.
  intros E Hact Hcr Hget.
  change (number_service mobile api_key w) with (handle (GetNum mobile api_key) w).
  rewrite handle_eq.
  assert (authorized (key_of (GetNum mobile api_key))
            (spec_cost (GetNum mobile api_key)) w = true) as ->.
  { apply authorized_true. exists d. auto. }
  unfold downstream. rewrite Hget. auto.
Qed.

Lemma handle_solvent r w : solvent w → solvent (snd (handle r w)).
Proof.
  intros Hw. rewrite handle_eq.
  destruct (authorized (key_of r) (spec_cost r) w) eqn:A; [|exact Hw].
  destruct (downstream r _); [exact Hw|].
  apply authorized_true in A as (d & E & _ & Hle).
  simpl. rewrite (charge_eq _ _ _ E). intros k d'. simpl.
  destruct (decide (key_of r = k)) as [->|Hne].
  - rewrite lookup_insert_eq. intros [= <-]. rewrite used_credits. simpl. lia.
  - rewrite lookup_insert_ne by done. apply Hw.
Qed.

Lemma serve_solvent rs : ∀ w, solvent w → solvent (serve rs w).
Proof.
  induction rs as [|r rs IH]; intros w Hw; simpl; [exact Hw|].
  apply IH, handle_solvent, Hw.
Qed.

(** C5. Starting from a store without overdrawn account, no account is
    overdrawn after any prefix of any sequence of requests served one
    after the other. *)
Theorem C5_balance_never_negative rs w n k d :
  solvent w →
  API_KEYS_STORAGE (serve (take n rs) w) !! k = Some d →
  0 ≤ credits d.
Proof. intros Hw. apply serve_solvent, Hw. Qed.

(** C6. On a request that succeeds, all of whose readings of the clock
    fall on the day [today]: an account last reset before [today] ends
    with [daily_requests] 1, whatever it was, and [last_reset] on
    [today]; an account last reset on [today] has [daily_requests]
    incremented by one and [last_reset] as it was. *)
Theorem C6_daily_counter_rollover r w d resp today :
  API_KEYS_STORAGE w !! key_of r = Some d →
  fst (handle r w) = inr resp →
  (∀ i, (clock_reads w ≤ i < clock_reads (snd (handle r w)))%nat →
        date (utcnow_at i) = today) →
  ∃ d',
    API_KEYS_STORAGE (snd (handle r w)) !! key_of r = Some d' ∧
    (date (last_reset d) < today →
       daily_requests d' = 1 ∧ date (last_reset d') = today) ∧
    (date (last_reset d) = today →
       daily_requests d' = daily_requests d + 1 ∧
       last_reset d' = last_reset d).
Proof.
  intros E Hok.
  destruct (handle_inr _ _ _ Hok) as (_ & _ & ->).
  rewrite (charge_eq _ _ _ E). simpl. intros Hday.
  eexists. split; [apply lookup_insert_eq|].
  unfold used, used_reads in *. simpl in *.
  case_bool_decide as Hlt; simpl.
  - rewrite (Hday (S (S (S (S (clock_reads w)))))) by lia.
    rewrite (Hday (S (S (S (clock_reads w))))) in Hlt by lia.
    split; [auto|]. intros Heq. lia.
  - rewrite (Hday (S (S (S (clock_reads w))))) in Hlt by lia.
    split; [intros; lia|]. auto.
Qed.

(** *** The request log *)

Lemma log_requests_snoc calls c : ∀ w,
  log_requests (calls ++ [c]) w = log_requests [c] (log_requests calls w).
Proof. induction calls as [|c' calls IH]; intros w; simpl; [done|apply IH]. Qed.

Lemma log_requests_one c w :
  ∃ e, call_of e = c ∧
       Log.id e = Z.of_nat (length (REQUEST_LOGS_STORAGE w)) + 1 ∧
       REQUEST_LOGS_STORAGE (log_requests [c] w) =
         logged (REQUEST_LOGS_STORAGE w) e.
Proof.
  unfold log_requests. rewrite log_request_eq.
  eexists. split; [|split]; cycle 2.
  - cbn [snd REQUEST_LOGS_STORAGE]. reflexivity.
  - destruct c; reflexivity.
  - reflexivity.
Qed.

Lemma logged_room (logs : list Log.entry) e :
  (length logs < 100)%nat → logged logs e = logs ++ [e].
Proof.
  intros H. unfold logged. rewrite length_app. simpl.
  case_bool_decide; [lia|done].
Qed.

Lemma logged_full (logs : list Log.entry) e :
  (100 ≤ length logs)%nat → logged logs e = tail logs ++ [e].
Proof.
  intros H. unfold logged. rewrite length_app. simpl.
  case_bool_decide; [|lia]. destruct logs; simpl in *; [lia|done].
Qed.

Lemma tail_drop_S {A} (l : list A) n : tail (drop n l) = drop (S n) l.
Proof.
  revert n. induction l as [|x l IH]; intros [|n]; simpl; auto.
Qed.

Lemma fmap_seq_slide {A} (f : nat → A) a n :
  tail (f <$> seq a (S n)) ++ [f (S a + n)%nat] = f <$> seq (S a) (S n).
Proof. rewrite (seq_S n (S a)), fmap_app. reflexivity. Qed.

(** The log after [calls] on an empty log: the last hundred calls, in the
    order they were made, each with the id it was given. *)
Lemma log_requests_closed_form calls : ∀ w,
  REQUEST_LOGS_STORAGE w = [] →
  call_of <$> REQUEST_LOGS_STORAGE (log_requests calls w) =
    drop (length calls - 100) calls ∧
  Log.id <$> REQUEST_LOGS_STORAGE (log_requests calls w) =
    id_given <$> seq (S (length calls - 100)) (length calls `min` 100).
Proof.
  induction calls as [|c calls IH] using rev_ind; intros w Hw.
  - simpl. rewrite Hw. done.
  - rewrite log_requests_snoc.
    destruct (IH w Hw) as [IHc IHi].
    destruct (log_requests_one c (log_requests calls w)) as (e & Hc & Hid & ->).
    assert (length (REQUEST_LOGS_STORAGE (log_requests calls w))
            = (length calls `min` 100)%nat) as Hlen.
    { rewrite <- (length_fmap Log.id), IHi, length_fmap, length_seq. done. }
    rewrite Hlen in Hid. rewrite length_app. simpl.
    destruct (decide (length calls < 100)%nat) as [Hlt|Hge].
    + rewrite logged_room by lia. rewrite !fmap_app. simpl.
      rewrite IHc, IHi, Hc, Hid.
      replace (length calls - 100)%nat with 0%nat by lia.
      replace (length calls + 1 - 100)%nat with 0%nat by lia.
      replace (length calls `min` 100)%nat with (length calls) by lia.
      replace ((length calls + 1) `min` 100)%nat with (S (length calls)) by lia.
      rewrite seq_S, fmap_app. simpl. split; [done|].
      do 2 f_equal. unfold id_given. lia.
    + rewrite logged_full by lia. rewrite !fmap_app. simpl.
      rewrite !fmap_tail, IHc, IHi, Hc, Hid.
      replace (length calls `min` 100)%nat with 100%nat by lia.
      replace ((length calls + 1) `min` 100)%nat with 100%nat by lia.
      replace (length calls + 1 - 100)%nat with (S (length calls - 100)) by lia.
      split.
      * rewrite tail_drop_S, drop_app_le by lia. done.
      * rewrite <- (fmap_seq_slide id_given (S (length calls - 100)) 99).
        do 2 f_equal. unfold id_given. lia.
Qed.

Lemma log_requests_length calls w :
  REQUEST_LOGS_STORAGE w = [] →
  length (REQUEST_LOGS_STORAGE (log_requests calls w))
  = (length calls `min` 100)%nat.
Proof.
  intros Hw. destruct (log_requests_closed_form calls w Hw) as [_ Hi].
  rewrite <- (length_fmap Log.id), Hi, length_fmap, length_seq. done.
Qed.

(** C7. A log that starts empty never holds more than 100 entries; an
    append to a log of 100 entries drops exactly its first entry and
    adds the new one at the end; and after 101 appends the first entry,
    of id 1, is gone while the 2nd to the 101st are left in the order
    of their appends, with the ids 2 to 101. *)
Theorem C7_log_bounded_drop_oldest
    (calls calls101 : list log_call) (c : log_call) (w : World) :
  REQUEST_LOGS_STORAGE w = [] →
  length calls101 = 101%nat →
  let logs := REQUEST_LOGS_STORAGE (log_requests calls w) in
  let logs101 := REQUEST_LOGS_STORAGE (log_requests calls101 w) in
  (length logs ≤ 100)%nat ∧
  (∃ e, call_of e = c ∧
        REQUEST_LOGS_STORAGE (log_requests (calls ++ [c]) w) =
          (if bool_decide (length logs = 100%nat) then tail logs else logs)
            ++ [e]) ∧
  (∃ e1 rest e101,
      REQUEST_LOGS_STORAGE (log_requests (take 100 calls101) w) = e1 :: rest ∧
      Log.id e1 = 1 ∧
      logs101 = rest ++ [e101]) ∧
  call_of <$> logs101 = tail calls101 ∧
  Log.id <$> logs101 = Z.of_nat <$> seq 2 100 ∧
  1 ∉ (Log.id <$> logs101).
Proof.
  intros Hw H101 logs logs101. subst logs logs101.
  pose proof (log_requests_length calls w Hw) as Hlen.
  destruct (log_requests_closed_form calls101 w Hw) as [Hc Hi].
  rewrite H101 in Hc, Hi. simpl in Hi.
  assert (Log.id <$> REQUEST_LOGS_STORAGE (log_requests calls101 w)
          = Z.of_nat <$> seq 2 100) as Hids by (rewrite Hi; reflexivity).
  split; [lia|]. split; [|split; [|split; [|split]]].
  - rewrite log_requests_snoc.
    destruct (log_requests_one c (log_requests calls w)) as (e & He & _ & ->).
    exists e. split; [done|]. case_bool_decide.
    + by rewrite logged_full by lia.
    + by rewrite logged_room by lia.
  - set (first100 := take 100 calls101).
    assert (length first100 = 100%nat) as H100
      by (unfold first100; rewrite length_take; lia).
    destruct (log_requests_closed_form first100 w Hw) as [_ Hi100].
    pose proof (log_requests_length first100 w Hw) as Hlen100.
    rewrite H100 in Hi100, Hlen100.
    destruct (drop 100 calls101) as [|c101 [|? ?]] eqn:Hd;
      try (apply (f_equal length) in Hd; rewrite length_drop in Hd;
           simpl in Hd; lia).
    rewrite <- (take_drop 100 calls101), Hd. fold first100.
    rewrite log_requests_snoc.
    destruct (log_requests_one c101 (log_requests first100 w))
      as (e & _ & _ & ->).
    destruct (REQUEST_LOGS_STORAGE (log_requests first100 w))
      as [|e1 rest]; [discriminate|].
    exists e1, rest, e. split; [done|]. split.
    + simpl in Hi100. by injection Hi100.
    + rewrite logged_full by (simpl in *; lia). done.
  - rewrite Hc. simpl. by destruct calls101.
  - exact Hids.
  - rewrite Hids. intros (j & Hj & Hin)%list_elem_of_fmap.
    apply elem_of_seq in Hin. lia.
Qed.

(** C8 (the code departs from the claim). [log_request] numbers an entry
    by the length of the log, which stays at 100 once the log is full:
    every entry appended after the first hundred is given the id 101. *)
Theorem C8_id_repeats_once_log_is_full (calls : list log_call) c w :
  REQUEST_LOGS_STORAGE w = [] →
  (100 ≤ length calls)%nat →
  Log.id <$> last (REQUEST_LOGS_STORAGE (log_requests (calls ++ [c]) w))
  = Some 101.
Proof.
  intros Hw Hge. rewrite log_requests_snoc.
  destruct (log_requests_one c (log_requests calls w)) as (e & _ & Hid & ->).
  rewrite logged_last. simpl. f_equal. rewrite Hid.
  rewrite (log_requests_length calls w Hw). lia.
Qed.

(** *** The fields that are stored and never read *)

Lemma same_but_limits_used n a b :
  same_but_limits a b →
  same_but_limits (used n a) (used n b) ∧ used_reads n a = used_reads n b.
Proof.
  destruct a, b. unfold same_but_limits, used, used_reads. simpl.
  intros (-> & -> & -> & -> & -> & -> & -> & -> & -> & ->).
  case_bool_decide; simpl; auto 12.
Qed.

Lemma same_but_limits_set_credits n a b :
  same_but_limits a b →
  same_but_limits (set_credits (credits a - n) a) (set_credits (credits b - n) b).
Proof.
  destruct a, b. unfold same_but_limits. simpl.
  intros (-> & -> & -> & -> & -> & -> & -> & -> & -> & ->). auto 12.
Qed.

Lemma same_but_limits_authorized k n w1 w2 :
  same_but_limits_world w1 w2 → authorized k n w1 = authorized k n w2.
Proof.
  intros (Hk & _ & _). unfold authorized.
  destruct (Hk k) as [a b Hab|]; [|done].
  destruct Hab as (_ & _ & _ & _ & -> & _ & _ & -> & _). done.
Qed.

(** C9. Two processes that differ at most in the [daily_limit] and
    [expires_at] stored for their keys answer every request alike (the
    same response or the same error), and afterwards still differ at
    most in those two fields: balances, counters and the log have
    changed alike. *)
Theorem C9_limits_stored_never_read r w1 w2 :
  same_but_limits_world w1 w2 →
  fst (handle r w1) = fst (handle r w2) ∧
  same_but_limits_world (snd (handle r w1)) (snd (handle r w2)).
Proof.
  intros Hw. rewrite !handle_eq.
  rewrite <- (same_but_limits_authorized (key_of r) (spec_cost r) w1 w2 Hw).
  assert (same_but_limits_world (tick w1) (tick w2)) as Htick.
  { destruct Hw as (Hk & Hl & Hc). repeat split; simpl; auto. }
  destruct Hw as (Hk & Hl & Hc).
  destruct (authorized (key_of r) (spec_cost r) w1) eqn:A; [|by split].
  rewrite <- Hc. destruct (downstream r _); [by split|].
  split; [done|]. simpl.
  apply authorized_true in A as (a & Ea & _).
  pose proof (Hk (key_of r)) as Hr. rewrite Ea in Hr.
  inversion Hr as [a' b Hab Ha' Eb|]; subst a'. symmetry in Eb.
  rewrite (charge_eq _ _ _ Ea), (charge_eq _ _ _ Eb).
  pose proof (same_but_limits_set_credits (spec_cost r) a b Hab) as Hset.
  destruct (same_but_limits_used (S (S (clock_reads w1))) _ _ Hset)
    as [Hused Hreads].
  rewrite <- Hc, <- Hl, <- Hreads.
  repeat split; simpl.
  intros k. destruct (decide (key_of r = k)) as [<-|Hne].
  - rewrite !lookup_insert_eq. by constructor.
  - rewrite !lookup_insert_ne by done. apply Hk.
Qed.

(** ** Further properties of the helpers *)

(** X1. [check_credits] reads and never writes: it returns without
    raising, leaves the process as it was, and answers [True] exactly
    for a stored, active key with at least the credits asked for. *)
Theorem X1_check_credits_reads_only api_key n w :
  ∃ b, check_credits api_key n w = (inr b, w) ∧
       (b = true ↔
        ∃ d, API_KEYS_STORAGE w !! api_key = Some d ∧
             is_active d = true ∧ n ≤ credits d).
Proof.
  exists (authorized api_key n w). split.
  - apply check_credits_eq.
  - apply authorized_true.
Qed.

(** X2. [use_credits] does not look at the balance: for a stored key it
    takes the amount off the credits whatever they are, also below zero,
    and changes nothing else of the account, of the other accounts or of
    the log. *)
Theorem X2_use_credits_is_unguarded api_key n w d :
  API_KEYS_STORAGE w !! api_key = Some d →
  fst (use_credits api_key n w) = inr () ∧
  API_KEYS_STORAGE (snd (use_credits api_key n w))
    = <[api_key := set_credits (credits d - n) d]> (API_KEYS_STORAGE w) ∧
  REQUEST_LOGS_STORAGE (snd (use_credits api_key n w)) = REQUEST_LOGS_STORAGE w ∧
  clock_reads (snd (use_credits api_key n w)) = clock_reads w.
Proof. intros E. rewrite use_credits_eq, E. done. Qed.

(** X3. For a key that the store does not hold, [check_credits] answers
    [False] and [use_credits] and [update_usage] do nothing: no
    exception escapes, no key is created, the process is as before. *)
Theorem X3_missing_key_is_ignored api_key n w :
  API_KEYS_STORAGE w !! api_key = None →
  check_credits api_key n w = (inr false, w) ∧
  use_credits api_key n w = (inr (), w) ∧
  update_usage api_key w = (inr (), w).
Proof.
  intros E.
  rewrite check_credits_eq, use_credits_eq, update_usage_eq.
  unfold authorized. rewrite E. done.
Qed.

Lemma used_identity n d : same_identity d (used n d).
Proof. unfold used. case_bool_decide; repeat split. Qed.

(** X4. [update_usage] on a stored key counts one more request in
    [total_requests] and stamps [last_used] with the clock; it never
    touches the credits, the activity flag, the limits or the identity
    of the account, any other account, or the log. *)
Theorem X4_update_usage_counts_only api_key w d :
  API_KEYS_STORAGE w !! api_key = Some d →
  ∃ d',
    fst (update_usage api_key w) = inr () ∧
    API_KEYS_STORAGE (snd (update_usage api_key w))
      = <[api_key := d']> (API_KEYS_STORAGE w) ∧
    REQUEST_LOGS_STORAGE (snd (update_usage api_key w))
      = REQUEST_LOGS_STORAGE w ∧
    total_requests d' = total_requests d + 1 ∧
    last_used d' = Some (utcnow_at (clock_reads w)) ∧
    credits d' = credits d ∧
    same_identity d d' ∧
    (daily_requests d' = 1 ∨ daily_requests d' = daily_requests d + 1).
Proof.
  intros E. rewrite update_usage_eq, E. simpl.
  exists (used (clock_reads w) d). repeat split;
    try (unfold used; case_bool_decide; reflexivity).
  unfold used. case_bool_decide; simpl; auto.
Qed.

(** *** Further properties of the log *)

(** X5. However many entries are appended to an empty log, the log
    holds the last hundred calls (all of them when there are fewer), in
    the order they were made, and the [j]-th entry appended carries the
    id [min j 101]: the ids run 1, 2, ... up to a full log. *)
Theorem X5_log_keeps_last_hundred calls w :
  REQUEST_LOGS_STORAGE w = [] →
  call_of <$> REQUEST_LOGS_STORAGE (log_requests calls w)
    = drop (length calls - 100) calls ∧
  Log.id <$> REQUEST_LOGS_STORAGE (log_requests calls w)
    = id_given <$> seq (S (length calls - 100)) (length calls `min` 100) ∧
  ((length calls ≤ 100)%nat →
   Log.id <$> REQUEST_LOGS_STORAGE (log_requests calls w)
     = Z.of_nat <$> seq 1 (length calls)).
Proof.
  intros Hw. destruct (log_requests_closed_form calls w Hw) as [Hc Hi].
  split; [exact Hc|]. split; [exact Hi|].
  intros Hle. rewrite Hi.
  replace (length calls - 100)%nat with 0%nat by lia.
  replace (length calls `min` 100)%nat with (length calls) by lia.
  apply list_fmap_ext. intros i j Hj.
  apply lookup_seq in Hj as [-> Hlt]. unfold id_given. lia.
Qed.

(** X6. One [log_request] on any log, also one longer than 100: the new
    entry is the last one and is numbered by the length before; a log
    shorter than 100 grows by one, any other keeps its length, so a log
    that is too long stays too long. *)
Theorem X6_log_request_length api_key endpoint prompt response_time n w :
  let w' := snd (log_request api_key endpoint prompt response_time n w) in
  fst (log_request api_key endpoint prompt response_time n w) = inr () ∧
  API_KEYS_STORAGE w' = API_KEYS_STORAGE w ∧
  (∃ e, last (REQUEST_LOGS_STORAGE w') = Some e ∧
        Log.id e = Z.of_nat (length (REQUEST_LOGS_STORAGE w)) + 1 ∧
        Log.created_at e = utcnow_at (clock_reads w)) ∧
  length (REQUEST_LOGS_STORAGE w')
    = (if bool_decide (length (REQUEST_LOGS_STORAGE w) < 100)%nat
       then S (length (REQUEST_LOGS_STORAGE w))
       else length (REQUEST_LOGS_STORAGE w)).
Proof.
  intros w'. subst w'. rewrite log_request_eq.
  cbn [fst snd API_KEYS_STORAGE REQUEST_LOGS_STORAGE].
  split; [done|]. split; [done|]. split.
  - eexists. split; [apply logged_last|]. split; reflexivity.
  - case_bool_decide.
    + rewrite logged_room by lia. rewrite length_app. simpl. lia.
    + rewrite logged_full by lia. rewrite length_app.
      destruct (REQUEST_LOGS_STORAGE w); simpl in *; lia.
Qed.

(** *** Further properties of the handlers *)

Lemma spec_cost_pos r : 0 < spec_cost r.
Proof. destruct r; simpl; lia. Qed.

Lemma handle_other_key r w k :
  k ≠ key_of r →
  API_KEYS_STORAGE (snd (handle r w)) !! k = API_KEYS_STORAGE w !! k.
Proof.
  intros Hk. rewrite handle_eq.
  destruct (authorized (key_of r) (spec_cost r) w) eqn:A; [|done].
  destruct (downstream r _); [done|].
  apply authorized_true in A as (d & E & _).
  cbn [snd]. rewrite (charge_eq _ _ _ E). cbn [API_KEYS_STORAGE].
  by rewrite lookup_insert_ne.
Qed.

Lemma handle_failure r w e :
  fst (handle r w) = inl e →
  snd (handle r w) = tick w ∧
  (e = HTTPException 402 (denial r) ∨
   ∃ cause, e = HTTPException 500 ("Number service error: " +:+ cause) ∧
            is_local r = false).
Proof.
  rewrite handle_eq.
  destruct (authorized (key_of r) (spec_cost r) w).
  - destruct (downstream r _) as [detail|resp] eqn:D; [|discriminate].
    simpl. intros [= <-]. split; [done|]. right.
    destruct r; simpl in D; try discriminate.
    destruct (client_get _ _) as [cause|]; [|discriminate].
    injection D as <-. eauto.
  - simpl. intros [= <-]. auto.
Qed.

(** What one request does to the account stored under [k]. *)
Lemma handle_account r w k d :
  API_KEYS_STORAGE w !! k = Some d →
  ∃ d',
    API_KEYS_STORAGE (snd (handle r w)) !! k = Some d' ∧
    credits d' = credits d -
      (match fst (handle r w) with
       | inr _ => if bool_decide (key_of r = k) then spec_cost r else 0
       | inl _ => 0
       end) ∧
    total_requests d' = total_requests d +
      (match fst (handle r w) with
       | inr _ => if bool_decide (key_of r = k) then 1 else 0
       | inl _ => 0
       end) ∧
    same_identity d d' ∧
    (0 ≤ daily_requests d ≤ total_requests d →
     0 ≤ daily_requests d' ≤ total_requests d').
Proof.
  intros E. rewrite handle_eq.
  destruct (authorized (key_of r) (spec_cost r) w) eqn:A.
  2: { exists d. simpl. repeat split; (done || lia). }
  destruct (downstream r _).
  { exists d. simpl. repeat split; (done || lia). }
  apply authorized_true in A as (d0 & E0 & _ & _).
  cbn [fst snd]. rewrite (charge_eq _ _ _ E0). cbn [API_KEYS_STORAGE].
  case_bool_decide as K.
  - subst k. rewrite E in E0. injection E0 as <-.
    rewrite lookup_insert_eq. eexists. split; [reflexivity|].
    rewrite used_credits, used_total_requests. simpl.
    split; [done|]. split; [done|]. split.
    + unfold used. case_bool_decide; repeat split.
    + unfold used. case_bool_decide; simpl; lia.
  - rewrite lookup_insert_ne by done.
    exists d. repeat split; (done || lia).
Qed.

Lemma handle_logs r w :
  (length (REQUEST_LOGS_STORAGE w) ≤ 100)%nat →
  (length (REQUEST_LOGS_STORAGE (snd (handle r w))) ≤ 100)%nat.
Proof.
  intros Hw. rewrite handle_eq.
  destruct (authorized (key_of r) (spec_cost r) w) eqn:A; [|done].
  destruct (downstream r _); [done|].
  apply authorized_true in A as (d & E & _).
  cbn [snd]. rewrite (charge_eq _ _ _ E). cbn [REQUEST_LOGS_STORAGE].
  destruct (decide (length (REQUEST_LOGS_STORAGE w) < 100)%nat).
  - rewrite logged_room by done. rewrite length_app. simpl. lia.
  - rewrite logged_full by lia. rewrite length_app.
    destruct (REQUEST_LOGS_STORAGE w); simpl in *; lia.
Qed.

(** X7. A request that is answered with an error has cost nothing and
    left no trace: the key store and the log are as before; and the only
    errors a handler raises are the 402 with its price and, for [/num]
    alone, the 500 that carries the cause. *)
Theorem X7_errors_leave_no_trace r w e :
  fst (handle r w) = inl e →
  API_KEYS_STORAGE (snd (handle r w)) = API_KEYS_STORAGE w ∧
  REQUEST_LOGS_STORAGE (snd (handle r w)) = REQUEST_LOGS_STORAGE w ∧
  (e = HTTPException 402 (denial r) ∨
   ∃ cause, e = HTTPException 500 ("Number service error: " +:+ cause) ∧
            is_local r = false).
Proof.
  intros H. destruct (handle_failure r w e H) as [-> He]. done.
Qed.

(** X8. A request never reads or writes the account of another key:
    whatever its outcome, every other key keeps its stored dict. *)
Theorem X8_other_keys_untouched r w k :
  k ≠ key_of r →
  API_KEYS_STORAGE (snd (handle r w)) !! k = API_KEYS_STORAGE w !! k.
Proof. apply handle_other_key. Qed.

(** *** Runs of requests *)

Lemma serve_account rs : ∀ w k d,
  API_KEYS_STORAGE w !! k = Some d →
  ∃ d',
    API_KEYS_STORAGE (serve rs w) !! k = Some d' ∧
    credits d' = credits d - spent k rs w ∧
    total_requests d' = total_requests d + answered k rs w ∧
    same_identity d d' ∧
    0 ≤ spent k rs w ∧ 0 ≤ answered k rs w ∧
    (0 ≤ daily_requests d ≤ total_requests d →
     0 ≤ daily_requests d' ≤ total_requests d').
Proof.
  induction rs as [|r rs IH]; intros w k d E.
  - exists d. simpl. repeat split; (done || lia).
  - destruct (handle_account r w k d E) as (d1 & E1 & Hc1 & Ht1 & Hi1 & Hn1).
    destruct (IH _ k d1 E1) as (d' & E' & Hc & Ht & Hi & Hs & Ha & Hn).
    exists d'. cbn [serve spent answered].
    pose proof (spec_cost_pos r).
    split; [done|]. split; [lia|]. split; [lia|]. split.
    { destruct Hi1 as (? & ? & ? & ? & ? & ? & ?).
      destruct Hi as (? & ? & ? & ? & ? & ? & ?).
      repeat split; congruence. }
    split; [|split; [|tauto]].
    + destruct (fst (handle r w)); [lia|]. case_bool_decide; lia.
    + destruct (fst (handle r w)); [lia|]. case_bool_decide; lia.
Qed.

Lemma serve_missing rs : ∀ w k,
  API_KEYS_STORAGE w !! k = None → API_KEYS_STORAGE (serve rs w) !! k = None.
Proof.
  induction rs as [|r rs IH]; intros w k E; [done|].
  simpl. apply IH.
  destruct (decide (k = key_of r)) as [->|Hne].
  - rewrite handle_eq.
    assert (authorized (key_of r) (spec_cost r) w = false) as ->
      by (apply authorized_false; by rewrite E).
    done.
  - by rewrite handle_other_key.
Qed.

Lemma serve_logs rs : ∀ w,
  (length (REQUEST_LOGS_STORAGE w) ≤ 100)%nat →
  (length (REQUEST_LOGS_STORAGE (serve rs w)) ≤ 100)%nat.
Proof.
  induction rs as [|r rs IH]; intros w Hw; [done|].
  simpl. apply IH, handle_logs, Hw.
Qed.

(** X9. Serving never creates or deletes a key, and to a stored account
    it can only do this: lower the credits and raise [total_requests];
    the id, key, name, creation date, activity flag, daily limit and
    expiry of every account stay what they were. *)
Theorem X9_serving_only_spends_and_counts rs w k :
  option_Forall2 evolved
    (API_KEYS_STORAGE w !! k) (API_KEYS_STORAGE (serve rs w) !! k).
Proof.
  destruct (API_KEYS_STORAGE w !! k) as [d|] eqn:E.
  - destruct (serve_account rs w k d E)
      as (d' & -> & Hc & Ht & Hi & Hs & Ha & _).
    constructor. split; [done|]. lia.
  - rewrite (serve_missing rs w k E). constructor.
Qed.

(** X10. The books balance: after any run of requests the credits of a
    key have gone down by exactly the prices of its answered requests,
    and its [total_requests] up by their number; refused and failed
    requests are free and uncounted. *)
Theorem X10_credits_spent_on_answers_only rs w k d :
  API_KEYS_STORAGE w !! k = Some d →
  ∃ d',
    API_KEYS_STORAGE (serve rs w) !! k = Some d' ∧
    credits d' = credits d - spent k rs w ∧
    total_requests d' = total_requests d + answered k rs w.
Proof.
  intros E. destruct (serve_account rs w k d E) as (d' & ? & ? & ? & _).
  eauto.
Qed.

(** X11. If in every account the requests counted for the day are
    between 0 and the total, as on a new key, this stays so after any
    run of requests. *)
Theorem X11_daily_within_total rs w :
  counted w → counted (serve rs w).
Proof.
  intros Hw k d' E'.
  destruct (API_KEYS_STORAGE w !! k) as [d|] eqn:E.
  - destruct (serve_account rs w k d E) as (d1 & E1 & _ & _ & _ & _ & _ & Hn).
    rewrite E' in E1. injection E1 as <-. apply Hn, (Hw k d E).
  - rewrite (serve_missing rs w k E) in E'. discriminate.
Qed.

Lemma serve_size rs w :
  size (API_KEYS_STORAGE (serve rs w)) = size (API_KEYS_STORAGE w).
Proof.
  rewrite <- !size_dom. f_equal. apply set_eq. intros k.
  rewrite !elem_of_dom.
  destruct (API_KEYS_STORAGE w !! k) as [d|] eqn:E.
  - destruct (serve_account rs w k d E) as (d' & -> & _). split; eauto.
  - rewrite (serve_missing rs w k E). done.
Qed.

(** X12. [/health] after any run of requests on a process whose log had
    at most 100 entries: it answers "healthy", counts as many keys as
    before the run and at most 100 log entries, and changes neither the
    key store nor the log. *)
Theorem X12_health_after_serving isoformat rs w :
  (length (REQUEST_LOGS_STORAGE w) ≤ 100)%nat →
  ∃ logs_count,
    health_check isoformat (serve rs w) =
      (inr (Healthy (isoformat (utcnow_at (clock_reads (serve rs w))))
              (size (API_KEYS_STORAGE w)) logs_count),
       tick (serve rs w)) ∧
    (logs_count ≤ 100)%nat.
Proof.
  intros Hw. exists (length (REQUEST_LOGS_STORAGE (serve rs w))).
  split; [|by apply serve_logs].
  rewrite <- (serve_size rs w). reflexivity.
Qed.

(** X13. A key buys whole calls only: [n] requests in a row for one of
    the five local endpoints, on an active key with [c >= 0] credits,
    are answered [min n (c / cost)] times and leave
    [c - cost * min n (c / cost)] credits; the rest are refused. *)
Theorem X13_credits_buy_whole_calls r n : ∀ w d,
  is_local r = true →
  API_KEYS_STORAGE w !! key_of r = Some d →
  is_active d = true →
  0 ≤ credits d →
  ∃ d',
    API_KEYS_STORAGE (serve (replicate n r) w) !! key_of r = Some d' ∧
    credits d' =
      credits d - spec_cost r * (Z.of_nat n `min` (credits d `div` spec_cost r)) ∧
    answered (key_of r) (replicate n r) w
      = Z.of_nat n `min` (credits d `div` spec_cost r).
Proof.
  pose proof (spec_cost_pos r) as Hpos.
  induction n as [|n IH]; intros w d Hloc E Hact Hnn.
  - exists d. simpl. split; [done|].
    assert (0 ≤ credits d `div` spec_cost r) by (apply Z.div_pos; lia).
    split; lia.
  - cbn [replicate serve answered].
    destruct (handle_account r w (key_of r) d E)
      as (d1 & E1 & Hc1 & _ & Hi1 & _).
    assert (is_active d1 = true) as Hact1.
    { destruct Hi1 as (_ & _ & _ & _ & <- & _). done. }
    rewrite handle_eq in Hc1 |- *.
    destruct (authorized (key_of r) (spec_cost r) w) eqn:A.
    + destruct (downstream_local r (S (clock_reads w)) Hloc) as [resp Hr].
      rewrite Hr in Hc1 |- *. cbn [fst snd] in *.
      rewrite bool_decide_eq_true_2 in Hc1 |- * by done.
      apply authorized_true in A as (d0 & E0 & _ & Hle).
      rewrite E in E0. injection E0 as <-.
      rewrite handle_eq, (proj2 (authorized_true _ _ _)), Hr in E1
        by eauto.
      cbn [snd] in E1.
      destruct (IH _ d1 Hloc E1 Hact1 ltac:(lia)) as (d' & E' & Hc & Ha).
      exists d'. split; [done|]. rewrite Ha, Hc, Hc1.
      replace (credits d - spec_cost r) with (credits d + (-1) * spec_cost r)
        by lia.
      rewrite Z.div_add by lia.
      assert (1 ≤ credits d `div` spec_cost r).
      { apply Z.div_le_lower_bound; lia. }
      split; lia.
    + cbn [fst snd] in *.
      apply authorized_false in A. rewrite E in A.
      destruct A as [A|A]; [congruence|].
      rewrite handle_eq, (proj2 (authorized_false _ _ _)) in E1
        by (rewrite E; auto).
      cbn [snd] in E1.
      destruct (IH _ d1 Hloc E1 Hact1 ltac:(lia)) as (d' & E' & Hc & Ha).
      exists d'. split; [done|]. rewrite Ha, Hc, Hc1.
      rewrite Z.sub_0_r, Z.div_small by lia.
      split; lia.
Qed.

(** *** Start-up *)

(** X14. [init_storage] on any process stores the default key, over a
    key of the same name if there is one, and leaves every other key and
    the log alone; afterwards [check_credits] accepts the default key
    for up to 50 credits, and the store is still without overdrawn or
    miscounted account if it was. *)
Theorem X14_init_storage_default_key default_key w :
  let w' := snd (init_storage default_key w) in
  fst (init_storage default_key w) = inr () ∧
  (∀ n, fst (check_credits default_key n w') = inr (bool_decide (n ≤ 50))) ∧
  (∀ k, k ≠ default_key →
        API_KEYS_STORAGE w' !! k = API_KEYS_STORAGE w !! k) ∧
  REQUEST_LOGS_STORAGE w' = REQUEST_LOGS_STORAGE w ∧
  (solvent w → solvent w') ∧
  (counted w → counted w').
Proof.
  intros w'. subst w'.
  unfold init_storage, store_key, utcnow, mbind, M_bind.
  cbn [fst snd API_KEYS_STORAGE REQUEST_LOGS_STORAGE clock_reads].
  split; [done|]. split; [|split; [|split; [done|split]]].
  - intros n. rewrite check_credits_eq. unfold authorized.
    cbn [fst API_KEYS_STORAGE]. rewrite lookup_insert_eq. done.
  - intros k Hk. by rewrite lookup_insert_ne.
  - intros Hw k d. cbn [API_KEYS_STORAGE].
    destruct (decide (default_key = k)) as [->|Hne].
    + rewrite lookup_insert_eq. intros [= <-]. simpl. lia.
    + rewrite lookup_insert_ne by done. apply Hw.
  - intros Hw k d. cbn [API_KEYS_STORAGE].
    destruct (decide (default_key = k)) as [->|Hne].
    + rewrite lookup_insert_eq. intros [= <-]. simpl. lia.
    + rewrite lookup_insert_ne by done. apply Hw.
Qed.

(** X15. With the admin table as [init_storage] leaves it,
    [verify_admin] accepts the name "mk" with the password "mk123", and
    with no other password unless it has the same hash; any other name
    is accepted only if the table already held it with the hash of the
    password; on the table of a new process only "mk" gets in. *)
Theorem X15_verify_admin_after_init sha256_hexdigest users username password :
  verify_admin sha256_hexdigest (init_admin_users sha256_hexdigest users)
    "mk" "mk123" = true ∧
  (verify_admin sha256_hexdigest (init_admin_users sha256_hexdigest users)
     username password = true ↔
   (username = "mk"%string ∧
    sha256_hexdigest password = sha256_hexdigest "mk123") ∨
   (username ≠ "mk"%string ∧
    users !! username = Some (sha256_hexdigest password))) ∧
  (verify_admin sha256_hexdigest (init_admin_users sha256_hexdigest ∅)
     username password = true →
   username = "mk"%string).
Proof.
  unfold verify_admin, init_admin_users. split; [|split].
  - rewrite lookup_insert_eq. by apply bool_decide_eq_true_2.
  - destruct (decide (username = "mk"%string)) as [->|Hne].
    + rewrite lookup_insert_eq, bool_decide_eq_true. split.
      * intros H. left. done.
      * intros [[_ H]|[H _]]; done.
    + rewrite lookup_insert_ne by done.
      destruct (users !! username) as [h|].
      * rewrite bool_decide_eq_true. split.
        -- intros ->. right. done.
        -- intros [[H _]|[_ [= ->]]]; done.
      * split; [discriminate|]. intros [[H _]|[_ H]]; done.
  - destruct (decide (username = "mk"%string)) as [->|Hne]; [done|].
    rewrite lookup_insert_ne, lookup_empty by done. discriminate.
Qed.

(** *** Keys *)

Lemma no_underscore_split t1 : ∀ t2 r1 r2,
  (∀ a b, t1 ≠ a +:+ "_" +:+ b) →
  (∀ a b, t2 ≠ a +:+ "_" +:+ b) →
  t1 +:+ "_" +:+ r1 = t2 +:+ "_" +:+ r2 →
  t1 = t2 ∧ r1 = r2.
Proof.
  induction t1 as [|c1 t1 IH]; intros [|c2 t2] r1 r2 H1 H2 Heq; simpl in Heq.
  - by injection Heq.
  - injection Heq as <- _. destruct (H2 "" t2). reflexivity.
  - injection Heq as -> _. destruct (H1 "" t1). reflexivity.
  - injection Heq as -> Heq.
    destruct (IH t2 r1 r2) as [-> ->]; [| |exact Heq|done].
    + intros a b ->. destruct (H1 (String c2 a) b). reflexivity.
    + intros a b ->. destruct (H2 (String c2 a) b). reflexivity.
Qed.

Lemma pretty_N_go_no_underscore x : ∀ s,
  (∀ a b, s ≠ a +:+ "_" +:+ b) →
  ∀ a b, pretty_N_go x s ≠ a +:+ "_" +:+ b.
Proof.
  induction (N.lt_wf_0 x) as [x _ IH]; intros s Hs.
  assert (x = 0 ∨ 0 < x)%N as [->|Hx] by lia.
  - by rewrite pretty_N_go_0.
  - rewrite pretty_N_go_step by done. apply IH.
    { by apply N.div_lt. }
    intros [|c a] b; simpl.
    + unfold pretty_N_char. by repeat case_match.
    + intros [= _ Hs']. by destruct (Hs a b).
Qed.

Lemma pretty_Z_no_underscore (t : Z) a b : pretty t ≠ a +:+ "_" +:+ b.
Proof.
  assert (∀ p a b, pretty (N.pos p) ≠ a +:+ "_" +:+ b) as Hpos.
  { intros p a' b'. unfold pretty, pretty_N.
    case_decide; [done|]. apply pretty_N_go_no_underscore.
    intros [|??] ?; discriminate. }
  destruct t as [|p|p]; unfold pretty, pretty_Z.
  - destruct a as [|? [|??]]; discriminate.
  - apply Hpos.
  - destruct a as [|c a]; simpl; [discriminate|].
    intros [= _ H]. by destruct (Hpos p a b).
Qed.

(** X16. The text of an API key determines the time stamp and the
    random part it was made from: two keys are equal only if both
    parts are, so keys made from different pairs never collide. *)
Theorem X16_generate_api_key_injective t1 r1 t2 r2 :
  generate_api_key t1 r1 = generate_api_key t2 r2 → t1 = t2 ∧ r1 = r2.
Proof.
  unfold generate_api_key. intros [= H].
  apply no_underscore_split in H as [Ht ->];
    auto using pretty_Z_no_underscore.
  split; [|done]. by apply (inj pretty).
Qed.

(** *** What the log and a refusal can be relied on for *)

Lemma logged_Forall (P : Log.entry → Prop) logs e :
  Forall P logs → P e → Forall P (logged logs e).
Proof.
  intros Hl He. unfold logged.
  assert (Forall P (logs ++ [e])) as H by (apply Forall_app; auto).
  case_bool_decide; [|done].
  destruct (logs ++ [e]); [done|]. by inversion H.
Qed.

Lemma handle_log_sound r w : log_sound w → log_sound (snd (handle r w)).
Proof.
  intros Hw. rewrite handle_eq.
  destruct (authorized (key_of r) (spec_cost r) w) eqn:A; [|exact Hw].
  destruct (downstream r _); [exact Hw|].
  apply authorized_true in A as (d & E & _).
  cbn [snd]. rewrite (charge_eq _ _ _ E). unfold log_sound.
  cbn [REQUEST_LOGS_STORAGE]. apply logged_Forall.
  - eapply Forall_impl; [exact Hw|].
    intros e [[d0 Hk] Hr]. split; [|exact Hr]. cbn [API_KEYS_STORAGE].
    destruct (decide (key_of r = Log.api_key e)) as [<-|Hne].
    + rewrite lookup_insert_eq. eauto.
    + rewrite lookup_insert_ne by done. eauto.
  - split.
    + cbn [API_KEYS_STORAGE Log.api_key]. rewrite lookup_insert_eq. eauto.
    + exists r. done.
Qed.

(** X17. If every entry of the log names a stored key and records one
    of the six endpoints with its parameter and the price of that
    endpoint, as in an empty log, this stays so after any run of
    requests: no entry is written for an unknown key or with another
    charge than the price. *)
Theorem X17_log_entries_stay_sound rs : ∀ w,
  log_sound w → log_sound (serve rs w).
Proof.
  induction rs as [|r rs IH]; intros w Hw; [done|].
  simpl. apply IH, handle_log_sound, Hw.
Qed.

Lemma serve_authorized_false k n rs w :
  authorized k n w = false → authorized k n (serve rs w) = false.
Proof.
  rewrite !authorized_false.
  destruct (API_KEYS_STORAGE w !! k) as [d|] eqn:E.
  - destruct (serve_account rs w k d E)
      as (d' & -> & Hc & _ & Hi & Hs & _).
    destruct Hi as (_ & _ & _ & _ & <- & _).
    intros [?|?]; [left; done|right; lia].
  - by rewrite (serve_missing rs w k E).
Qed.

(** X18. A refusal is final: a request answered 402 is answered 402
    again after any run of requests, since no handler adds credits,
    activates a key or creates one. *)
Theorem X18_refusal_is_final r rs w :
  fst (handle r w) = inl (HTTPException 402 (denial r)) →
  fst (handle r (serve rs w)) = inl (HTTPException 402 (denial r)).
Proof.
  intros H. rewrite handle_eq in H. rewrite handle_eq.
  destruct (authorized (key_of r) (spec_cost r) w) eqn:A.
  - destruct (downstream r _); discriminate.
  - by rewrite (serve_authorized_false _ _ rs w A).
Qed.

(** X19. An account that is inactive or has no credit left is frozen:
    whatever requests are served, for it or for others, its stored dict
    stays exactly as it is. *)
Theorem X19_spent_or_inactive_account_is_frozen rs : ∀ w k d,
  API_KEYS_STORAGE w !! k = Some d →
  is_active d = false ∨ credits d ≤ 0 →
  API_KEYS_STORAGE (serve rs w) !! k = Some d.
Proof.
  induction rs as [|r rs IH]; intros w k d E Hd; [done|].
  simpl. apply IH; [|done].
  destruct (decide (k = key_of r)) as [->|Hne].
  - rewrite handle_eq.
    assert (authorized (key_of r) (spec_cost r) w = false) as ->; [|done].
    apply authorized_false. rewrite E. pose proof (spec_cost_pos r).
    destruct Hd; [left; done|right; lia].
  - by rewrite handle_other_key.
Qed.

End Gateway.

(** *** Which endpoints reach the network *)

(** C10. The handlers of /image, /video, /voice, /qr and /ffinfo do not
    depend on the number service: whatever it would answer, they return
    the same result and leave the same state; they never answer 500; and
    for a known active key with enough credits they answer and charge.
    The handler of /num answers 500 or not according to what the number
    service does. *)
Theorem C10_only_num_reaches_the_network
    utcnow_at quote client_get client_get' r w :
  is_local r = true →
  handle utcnow_at quote client_get r w
    = handle utcnow_at quote client_get' r w ∧
  (∀ detail, fst (handle utcnow_at quote client_get r w)
             ≠ inl (HTTPException 500 detail)) ∧
  (∀ d, API_KEYS_STORAGE w !! key_of r = Some d →
        is_active d = true →
        spec_cost r ≤ credits d →
        ∃ resp d',
          fst (handle utcnow_at quote client_get r w) = inr resp ∧
          API_KEYS_STORAGE (snd (handle utcnow_at quote client_get r w))
            !! key_of r = Some d' ∧
          credits d' = credits d - spec_cost r) ∧
  (∀ mobile api_key d text cause,
      API_KEYS_STORAGE w !! api_key = Some d →
      is_active d = true →
      5 ≤ credits d →
      fst (handle utcnow_at quote (λ _ _, inr text) (GetNum mobile api_key) w)
        = inr (Text text) ∧
      fst (handle utcnow_at quote (λ _ _, inl cause) (GetNum mobile api_key) w)
        = inl (HTTPException 500 ("Number service error: " +:+ cause))).
Proof.
  intros Hloc. rewrite !handle_eq.
  assert (∀ cg n, downstream quote cg r n = downstream quote client_get r n)
    as Hd by (intros; destruct r; try discriminate; reflexivity).
  destruct (downstream_local quote client_get r (S (clock_reads w)) Hloc)
    as [resp Hresp].
  rewrite (Hd client_get'), Hresp.
  split; [done|]. split; [|split].
  - intros detail. destruct (authorized _ _ w); simpl; congruence.
  - intros d E Hact Hle.
    assert (authorized (key_of r) (spec_cost r) w = true) as ->
      by (apply authorized_true; eauto).
    exists resp. eexists. split; [done|]. simpl.
    rewrite (charge_eq _ _ _ _ E). simpl. rewrite lookup_insert_eq.
    split; [done|]. by rewrite used_credits.
  - intros mobile api_key d text cause E Hact Hle. rewrite !handle_eq.
    assert (authorized (key_of (GetNum mobile api_key))
              (spec_cost (GetNum mobile api_key)) w = true) as ->
      by (apply authorized_true; eauto).
    done.
Qed.

(** ** The statements at work on the concrete process *)

Lemma world0_solvent : solvent world0.
Proof.
  intros k d. unfold world0. simpl. rewrite !lookup_insert.
  repeat case_decide; try rewrite lookup_empty; intros [= <-]; simpl; lia.
Qed.

Lemma world0_same_but_limits : same_but_limits_world world0 world0'.
Proof.
  split; [|done]. intros k. unfold world0, world0'. simpl.
  rewrite !lookup_insert.
  repeat case_decide; try rewrite lookup_empty; constructor;
    repeat split.
Qed.

(** An unknown key and an inactive key with 50 credits are both told
    that they lack credits. *)
Lemma C1_unknown_or_inactive_key_answered_402_witness :
  fst (handle clock0 quote0 net_up (GetImage "cat" 512 512 "nokey") world0)
    = inl (HTTPException 402 "Insufficient credits. This service costs 2 credits.")
  ∧ fst (handle clock0 quote0 net_up (GetQr "x" "k2") world0)
    = inl (HTTPException 402 "Insufficient credits. This service costs 1 credit.").
Proof.
  split.
  - rewrite (C1_unknown_or_inactive_key_answered_402 clock0 quote0 net_up
               (GetImage "cat" 512 512 "nokey") world0).
    + reflexivity.
    + left. reflexivity.
  - rewrite (C1_unknown_or_inactive_key_answered_402 clock0 quote0 net_up
               (GetQr "x" "k2") world0).
    + reflexivity.
    + right. exists account_off. split; reflexivity.
Defined.

Lemma C2_success_charges_table_cost_witness :
  ∃ d', API_KEYS_STORAGE
          (snd (handle clock0 quote0 net_up (GetImage "cat" 512 512 "k1") world0))
          !! "k1"%string = Some d' ∧
        credits d' = 48 ∧ total_requests d' = 1.
Proof.
  destruct (C2_success_charges_table_cost clock0 quote0 net_up
              (GetImage "cat" 512 512 "k1") world0 account0
              (Text "https://image.pollinations.ai/prompt/cat?width=512&height=512&nologo=true"))
    as (d' & e & H1 & H2 & H3 & _).
  - reflexivity.
  - reflexivity.
  - simpl. lia.
  - reflexivity.
  - exists d'. split; [exact H1|]. split; [exact H2|exact H3].
Defined.

Lemma C3_insufficient_credits_changes_nothing_witness :
  fst (handle clock0 quote0 net_up (GetVideo "cat" "k3") world0)
    = inl (HTTPException 402 "Insufficient credits. This service costs 2 credits.")
  ∧ API_KEYS_STORAGE (snd (handle clock0 quote0 net_up (GetVideo "cat" "k3") world0))
    = API_KEYS_STORAGE world0.
Proof.
  destruct (C3_insufficient_credits_changes_nothing clock0 quote0 net_up
              (GetVideo "cat" "k3") world0 account_low) as (H1 & H2 & _).
  - reflexivity.
  - simpl. lia.
  - split; [exact H1|exact H2].
Defined.

Lemma C4_downstream_failure_charges_nothing_witness :
  fst (number_service clock0 net_down "5550100" "k1" world0)
    = inl (HTTPException 500 "Number service error: timed out")
  ∧ API_KEYS_STORAGE (snd (number_service clock0 net_down "5550100" "k1" world0))
    = API_KEYS_STORAGE world0.
Proof.
  destruct (C4_downstream_failure_charges_nothing clock0 quote0 net_down
              "5550100" "k1" world0 account0 "timed out") as (H1 & H2 & _).
  - reflexivity.
  - reflexivity.
  - simpl. lia.
  - reflexivity.
  - split; [exact H1|exact H2].
Defined.

Lemma C5_balance_never_negative_witness :
  ∃ d, API_KEYS_STORAGE
         (serve clock0 quote0 net_up
            (take 2 [GetNum "5550100" "k1"; GetImage "cat" 512 512 "k1";
                     GetQr "x" "k3"]) world0) !! "k1"%string = Some d ∧
       0 ≤ credits d.
Proof.
  eexists. split; [vm_compute; reflexivity|].
  eapply (C5_balance_never_negative clock0 quote0 net_up
            [GetNum "5550100" "k1"; GetImage "cat" 512 512 "k1"; GetQr "x" "k3"]
            world0 2 "k1").
  - exact world0_solvent.
  - vm_compute. reflexivity.
Defined.

Lemma C6_daily_counter_rollover_witness :
  ∃ d', API_KEYS_STORAGE
          (snd (handle clock0 quote0 net_up (GetQr "x" "k1") world0))
          !! "k1"%string = Some d' ∧
        daily_requests d' = 1 ∧ date (last_reset d') = 20000.
Proof.
  destruct (C6_daily_counter_rollover clock0 quote0 net_up (GetQr "x" "k1")
              world0 account0
              (Text "https://api.qrserver.com/v1/create-qr-code/?size=200x200&data=x&format=svg")
              20000)
    as (d' & H1 & H2 & _).
  - reflexivity.
  - reflexivity.
  - intros i _. reflexivity.
  - exists d'. split; [exact H1|]. apply H2. simpl. lia.
Defined.

Lemma C7_log_bounded_drop_oldest_witness :
  Log.id <$> REQUEST_LOGS_STORAGE (log_requests clock0 (replicate 101 call0) fresh)
  = Z.of_nat <$> seq 2 100.
Proof.
  destruct (C7_log_bounded_drop_oldest clock0 (replicate 3 call0)
              (replicate 101 call0) call0 fresh)
    as (_ & _ & _ & _ & H & _).
  - reflexivity.
  - reflexivity.
  - exact H.
Defined.

(** The 101st and the 102nd entry appended to an empty log both get the
    id 101. *)
Lemma C8_id_repeats_once_log_is_full_witness :
  Log.id <$> last (REQUEST_LOGS_STORAGE
                     (log_requests clock0 (replicate 100 call0 ++ [call0]) fresh))
    = Some 101
  ∧ Log.id <$> last (REQUEST_LOGS_STORAGE
                       (log_requests clock0 (replicate 101 call0 ++ [call0]) fresh))
    = Some 101.
Proof.
  split.
  - apply (C8_id_repeats_once_log_is_full clock0 (replicate 100 call0) call0 fresh).
    + reflexivity.
    + simpl. lia.
  - apply (C8_id_repeats_once_log_is_full clock0 (replicate 101 call0) call0 fresh).
    + reflexivity.
    + simpl. lia.
Defined.

Lemma C9_limits_stored_never_read_witness :
  fst (handle clock0 quote0 net_up (GetImage "cat" 512 512 "k1") world0)
  = fst (handle clock0 quote0 net_up (GetImage "cat" 512 512 "k1") world0').
Proof.
  destruct (C9_limits_stored_never_read clock0 quote0 net_up
              (GetImage "cat" 512 512 "k1") world0 world0') as [H _].
  - exact world0_same_but_limits.
  - exact H.
Defined.

Lemma C10_only_num_reaches_the_network_witness :
  handle clock0 quote0 net_up (GetVoice "hello" "k1") world0
  = handle clock0 quote0 net_down (GetVoice "hello" "k1") world0.
Proof.
  destruct (C10_only_num_reaches_the_network clock0 quote0 net_up net_down
              (GetVoice "hello" "k1") world0) as [H _].
  - reflexivity.
  - exact H.
Defined.


(** ** The further properties at work on the concrete process *)

Lemma world1_counted : counted world1.
Proof.
  intros k d. unfold world1. simpl. rewrite !lookup_insert.
  repeat case_decide; try rewrite lookup_empty; intros [= <-]; simpl; lia.
Qed.

(** [use_credits] takes 5 credits off an account that has 1. *)
Lemma X2_use_credits_is_unguarded_witness :
  credits <$> API_KEYS_STORAGE (snd (use_credits "k3" 5 world0)) !! "k3"%string
  = Some (-4).
Proof.
  destruct (X2_use_credits_is_unguarded "k3" 5 world0 account_low)
    as (_ & H & _).
  - reflexivity.
  - rewrite H, lookup_insert_eq. reflexivity.
Defined.

Lemma X3_missing_key_is_ignored_witness :
  use_credits "nokey" 5 world0 = (inr (), world0).
Proof.
  destruct (X3_missing_key_is_ignored clock0 "nokey" 5 world0) as (_ & H & _).
  - reflexivity.
  - exact H.
Defined.

Lemma X4_update_usage_counts_only_witness :
  ∃ d', API_KEYS_STORAGE (snd (update_usage clock0 "k1" world0))
        = <["k1"%string := d']> (API_KEYS_STORAGE world0) ∧
        total_requests d' = 1 ∧ credits d' = 50.
Proof.
  destruct (X4_update_usage_counts_only clock0 "k1" world0 account0)
    as (d' & _ & H1 & _ & H2 & _ & H3 & _).
  - reflexivity.
  - exists d'. split; [exact H1|]. split; [exact H2|exact H3].
Defined.

Lemma X5_log_keeps_last_hundred_witness :
  call_of <$> REQUEST_LOGS_STORAGE (log_requests clock0 (replicate 150 call0) fresh)
  = replicate 100 call0.
Proof.
  destruct (X5_log_keeps_last_hundred clock0 (replicate 150 call0) fresh)
    as (H & _).
  - reflexivity.
  - exact H.
Defined.

Lemma X7_errors_leave_no_trace_witness :
  API_KEYS_STORAGE (snd (handle clock0 quote0 net_down (GetNum "5550100" "k1") world0))
  = API_KEYS_STORAGE world0.
Proof.
  destruct (X7_errors_leave_no_trace clock0 quote0 net_down
              (GetNum "5550100" "k1") world0
              (HTTPException 500 "Number service error: timed out"))
    as (H & _).
  - reflexivity.
  - exact H.
Defined.

Lemma X8_other_keys_untouched_witness :
  API_KEYS_STORAGE
    (snd (handle clock0 quote0 net_up (GetImage "cat" 512 512 "k1") world0))
    !! "k3"%string
  = API_KEYS_STORAGE world0 !! "k3"%string.
Proof.
  apply (X8_other_keys_untouched clock0 quote0 net_up
           (GetImage "cat" 512 512 "k1") world0 "k3").
  discriminate.
Defined.

Lemma X10_credits_spent_on_answers_only_witness :
  ∃ d', API_KEYS_STORAGE
          (serve clock0 quote0 net_down
             [GetImage "cat" 512 512 "k1"; GetNum "5550100" "k1";
              GetQr "x" "k3"; GetVoice "hello" "k1"] world0) !! "k1"%string
        = Some d' ∧
        credits d' = 47 ∧ total_requests d' = 2.
Proof.
  destruct (X10_credits_spent_on_answers_only clock0 quote0 net_down
              [GetImage "cat" 512 512 "k1"; GetNum "5550100" "k1";
               GetQr "x" "k3"; GetVoice "hello" "k1"] world0 "k1" account0)
    as (d' & H1 & H2 & H3).
  - reflexivity.
  - exists d'. split; [exact H1|]. split.
    + rewrite H2. vm_compute. reflexivity.
    + rewrite H3. vm_compute. reflexivity.
Defined.

Lemma X11_daily_within_total_witness :
  counted (serve clock0 quote0 net_up
             [GetQr "x" "k3"; GetQr "y" "k3"; GetQr "z" "k2"] world1).
Proof.
  apply (X11_daily_within_total clock0 quote0 net_up
           [GetQr "x" "k3"; GetQr "y" "k3"; GetQr "z" "k2"] world1).
  exact world1_counted.
Defined.

Lemma X12_health_after_serving_witness :
  ∃ logs_count,
    fst (health_check clock0 isoformat0
           (serve clock0 quote0 net_up [GetQr "x" "k1"; GetQr "y" "k3"] world0))
    = inr (Healthy "20000T11" 3 logs_count) ∧ (logs_count ≤ 100)%nat.
Proof.
  destruct (X12_health_after_serving clock0 quote0 net_up isoformat0
              [GetQr "x" "k1"; GetQr "y" "k3"] world0) as (c & H & Hc).
  - simpl. lia.
  - exists c. split; [|exact Hc]. rewrite H. vm_compute. reflexivity.
Defined.

(** Fifty credits buy 25 images, not 30. *)
Lemma X13_credits_buy_whole_calls_witness :
  ∃ d', API_KEYS_STORAGE
          (serve clock0 quote0 net_up
             (replicate 30 (GetImage "cat" 512 512 "k1")) world0) !! "k1"%string
        = Some d' ∧
        credits d' = 0 ∧
        answered clock0 quote0 net_up "k1"
          (replicate 30 (GetImage "cat" 512 512 "k1")) world0 = 25.
Proof.
  destruct (X13_credits_buy_whole_calls clock0 quote0 net_up
              (GetImage "cat" 512 512 "k1") 30 world0 account0)
    as (d' & H1 & H2 & H3).
  - reflexivity.
  - reflexivity.
  - reflexivity.
  - simpl. lia.
  - exists d'. split; [exact H1|]. split; [exact H2|exact H3].
Defined.

Lemma X16_generate_api_key_injective_witness :
  1762300000 = 1762300000 ∧ "q9_Zb-0"%string = "q9_Zb-0"%string.
Proof.
  apply (X16_generate_api_key_injective 1762300000 "q9_Zb-0"
           1762300000 "q9_Zb-0").
  reflexivity.
Defined.

Lemma X17_log_entries_stay_sound_witness :
  log_sound (serve clock0 quote0 net_up
               [GetQr "x" "k1"; GetNum "5550100" "k1"; GetQr "y" "k2"] world0).
Proof.
  apply (X17_log_entries_stay_sound clock0 quote0 net_up
           [GetQr "x" "k1"; GetNum "5550100" "k1"; GetQr "y" "k2"] world0).
  constructor.
Defined.

Lemma X18_refusal_is_final_witness :
  fst (handle clock0 quote0 net_up (GetVideo "cat" "k3")
         (serve clock0 quote0 net_up [GetQr "x" "k1"; GetQr "y" "k3"] world0))
  = inl (HTTPException 402 "Insufficient credits. This service costs 2 credits.").
Proof.
  apply (X18_refusal_is_final clock0 quote0 net_up (GetVideo "cat" "k3")
           [GetQr "x" "k1"; GetQr "y" "k3"] world0).
  reflexivity.
Defined.

Lemma X19_spent_or_inactive_account_is_frozen_witness :
  API_KEYS_STORAGE
    (serve clock0 quote0 net_up [GetQr "x" "k2"; GetQr "y" "k1"] world0)
    !! "k2"%string = Some account_off.
Proof.
  apply (X19_spent_or_inactive_account_is_frozen clock0 quote0 net_up
           [GetQr "x" "k2"; GetQr "y" "k1"] world0 "k2" account_off).
  - reflexivity.
  - left. reflexivity.
Defined.
